(** * reddit-mcp: error classifier, retry helper, rate limiter, OAuth2
      token manager, read tools and image upload

    A shallow embedding of [src/utils/error-handler.ts],
    [src/utils/rate-limiter.ts], [src/auth/reddit-auth.ts], and of
    [getPost] and [flattenComments] of [src/tools/read.ts] and
    [src/utils/image-upload.ts].

    Conventions
    - Millisecond clocks and counters are [Z]. Real-valued quantities (token
      counts, delays) are exact rationals [Q] in the models the general
      theorems are about, with [number] adding NaN where the source can
      produce it; these theorems state only what rounding leaves true.
      Where rounding decides, the same code is given in IEEE 754 binary64
      (module [Double], [RateLimiterDouble], [delayInDoubles]) and run on
      explicit inputs.
    - [string | null] and [string | undefined] fields are [option string];
      the JavaScript truthiness test on them is [truthy].
    - Promises are modelled by their outcome; the network, the clock, timers
      and [Math.random] are explicit parameters or explicit state. *)

From Stdlib Require Import ZArith QArith Qround Qminmax.
From Stdlib Require Import List String Ascii Bool Lia Lqa.
From Stdlib Require Import DecimalString DecimalN DecimalPos.
From Stdlib Require Import Uint63 PrimFloat SpecFloat FloatOps.
Import ListNotations.

Local Open Scope string_scope.
Local Open Scope list_scope.
Local Open Scope Z_scope.

(** ** Shared JavaScript idioms *)

(** A JavaScript number that may be NaN. *)
Inductive number : Type :=
| NaN
| Num (q : Q).

(** [x * k] on numbers: NaN is absorbing. *)
Definition nmul (x : number) (k : Q) : number :=
match x with
| NaN => NaN
| Num q => Num (q * k)%Q
end.

(** Truthiness of a [string | null | undefined] value: [null], [undefined]
    and the empty string are falsy. *)
Definition truthy (v : option string) : bool :=
match v with
| None => false
| Some EmptyString => false
| Some (String _ _) => true
end.

(** [a || b] on optional strings with a string default. *)
Definition orElse (v : option string) (d : string) : string :=
match v with
| Some (String c r) => String c r
| _ => d
end.

(** ** JavaScript numbers as the engine holds them

    A JavaScript number is an IEEE 754 binary64 value, and [+], [-], [*] and
    [/] are the operations of that format, rounding to nearest, ties to
    even. *)

Module Double.

(** The number that holds the integer [z] (below 2^63 in absolute value),
    exact up to 2^53. *)
Definition ofZ (z : Z) : float :=
match z with
| Z0 => 0%float
| Zpos _ => of_uint63 (Uint63.of_Z z)
| Zneg p => (- of_uint63 (Uint63.of_Z (Zpos p)))%float
end.

(** [Math.min(a, b)], up to the sign of a zero result. *)
Definition min (a b : float) : float :=
if is_nan a || is_nan b then nan
else if (b <? a)%float then b else a.

(** [Math.floor(x)] as an integer; [None] when [x] is not finite. *)
Definition floor (x : float) : option Z :=
match Prim2SF x with
| S754_zero _ => Some 0
| S754_finite s m e =>
    let n := if s then Zneg m else Zpos m in
    Some (if 0 <=? e then n * 2 ^ e else n / 2 ^ (- e))
| _ => None
end.

(** [Math.ceil(x)] as an integer; [None] when [x] is not finite. *)
Definition ceil (x : float) : option Z :=
option_map Z.opp (floor (- x)%float).

(** [Math.pow(2, n)] for an integer [n]. *)
Definition pow2 (n : Z) : float := Z.ldexp 1%float n.

End Double.

(** ** src/utils/error-handler.ts *)

Module ErrorHandler.

(** The class of an error object, as tested by [instanceof]. [ErrorC] is the
    built-in [Error]; the four subclasses extend [RedditAPIErrorC]. *)
Inductive ErrorClass : Type :=
| ErrorC
| RedditAPIErrorC
| RateLimitErrorC
| AuthenticationErrorC
| NotFoundErrorC
| ForbiddenErrorC.

(** The [data] payload of an HTTP response; only [data.message] is read. *)
Record ResponseData : Type := mkData {
  data_message : option string
}.

(** An instance of [Error] or of one of the [RedditAPIError] classes. *)
Record ErrorObj : Type := mkError {
  cls : ErrorClass;
  message : string;
  statusCode : option Z;
  errorCode : option string;
  details : option ResponseData;
  retryAfter : option number
}.

Definition newError (msg : string) : ErrorObj :=
mkError ErrorC msg None None None None.

(** [new RedditAPIError(message, statusCode?, errorCode?, details?)] *)
Definition newRedditAPIError (msg : string) (status : option Z)
  (code : option string) (det : option ResponseData) : ErrorObj :=
mkError RedditAPIErrorC msg status code det None.

(** [super(message, 429, 'RATE_LIMIT_EXCEEDED')] plus [retryAfter]. *)
Definition newRateLimitError (msg : string) (ra : number) : ErrorObj :=
mkError RateLimitErrorC msg (Some 429) (Some "RATE_LIMIT_EXCEEDED") None (Some ra).

Definition newAuthenticationError (msg : string) : ErrorObj :=
mkError AuthenticationErrorC msg (Some 401) (Some "AUTHENTICATION_FAILED") None None.

Definition newNotFoundError (msg : string) : ErrorObj :=
mkError NotFoundErrorC msg (Some 404) (Some "NOT_FOUND") None None.

Definition newForbiddenError (msg : string) : ErrorObj :=
mkError ForbiddenErrorC msg (Some 403) (Some "FORBIDDEN") None None.

(** [error.response] of an [AxiosError]. [headers] is reduced to the one
    header the code reads. *)
Record AxiosResponse : Type := mkResponse {
  status : Z;
  data : option ResponseData;
  header_retry_after : option string
}.

(** A thrown (or rejected) JavaScript value of type [unknown]. *)
Inductive Thrown : Type :=
| TAxios (response : option AxiosResponse) (msg : string)
| TError (e : ErrorObj)
| TOther (repr : string).

(** *** parseInt(s, 10) *)

(** The white space and line terminators [parseInt] skips. The strings
    read here are header values, which hold one character per byte
    (Latin-1): of the white space above ASCII only the no-break space
    U+00A0 can occur in them. *)
Definition isWhiteSpace (c : ascii) : bool :=
let n := nat_of_ascii c in
((n =? 9) || (n =? 10) || (n =? 11) || (n =? 12) || (n =? 13) || (n =? 32)
 || (n =? 160))%nat.

Fixpoint skipWhiteSpace (s : string) : string :=
match s with
| EmptyString => EmptyString
| String c r => if isWhiteSpace c then skipWhiteSpace r else s
end.

Definition digitValue (c : ascii) : option Z :=
let n := Z.of_nat (nat_of_ascii c) in
if (48 <=? n) && (n <=? 57) then Some (n - 48) else None.

(** Reads the longest prefix of decimal digits; [acc] is [None] until a
    first digit has been read. *)
Fixpoint readDigits (s : string) (acc : option Z) : option Z :=
match s with
| EmptyString => acc
| String c r =>
    match digitValue c with
    | Some d => readDigits r (Some (match acc with Some a => a * 10 + d | None => d end))
    | None => acc
    end
end.

(** [parseInt(s, 10)]; [None] is NaN. The result is the exact integer: it
    is the number [parseInt] returns when it is at most 2^53 in absolute
    value. *)
Definition parseInt10 (s : string) : option Z :=
let s1 := skipWhiteSpace s in
let '(sign, s2) :=
  match s1 with
  | String "-" r => (-1, r)
  | String "+" r => (1, r)
  | _ => (1, s1)
  end in
match readDigits s2 None with
| Some v => Some (sign * v)
| None => None
end.

(** Template-literal conversion of an integer-or-NaN number. *)
Definition intToString (v : option Z) : string :=
match v with
| Some z => NilZero.string_of_int (Z.to_int z)
| None => "NaN"
end.

Definition intToNumber (v : option Z) : number :=
match v with
| Some z => Num (inject_Z z)
| None => NaN
end.

(** *** parseRedditError *)

(** [data?.message] *)
Definition dataMessage (d : option ResponseData) : option string :=
match d with
| Some x => data_message x
| None => None
end.

(** [switch (status)] compares with strict equality, case by case; an
    [undefined] status matches no case. *)
Definition statusIs (st : option Z) (k : Z) : bool :=
match st with
| Some v => v =? k
| None => false
end.

Definition parseRedditError (error : Thrown) : ErrorObj :=
match error with
| TAxios response msg =>
    let status := option_map status response in
    let data := match response with Some r => data r | None => None end in
    if statusIs status 401 then
      newAuthenticationError
        (orElse (dataMessage data) "Authentication failed. Please check your credentials.")
    else if statusIs status 403 then
      newForbiddenError
        (orElse (dataMessage data)
           "Access forbidden. You may not have permission to access this resource.")
    else if statusIs status 404 then
      newNotFoundError (orElse (dataMessage data) "Resource not found.")
    else if statusIs status 429 then
      let hdr := match response with Some r => header_retry_after r | None => None end in
      let retryAfter := parseInt10 (orElse hdr "60") in
      newRateLimitError
        ("Rate limit exceeded. Retry after " ++ intToString retryAfter ++ " seconds.")%string
        (intToNumber retryAfter)
    else if statusIs status 500 || statusIs status 502
            || statusIs status 503 || statusIs status 504 then
      newRedditAPIError "Reddit API is currently unavailable. Please try again later."
        status (Some "SERVICE_UNAVAILABLE") None
    else
      newRedditAPIError
        (orElse (dataMessage data) (orElse (Some msg) "An unknown error occurred"))
        status (Some "UNKNOWN_ERROR") data
| TError e => newRedditAPIError (message e) None None None
| TOther _ => newRedditAPIError "An unknown error occurred" None None None
end.

(** The taxonomy of the error classifier, read off a classified error: the
    four subclasses are kinds of their own, the base class is split by its
    [errorCode]. *)
Inductive Kind : Type :=
| Authentication
| Forbidden
| NotFound
| RateLimit
| ServiceUnavailable
| Unknown.

Definition kindOf (e : ErrorObj) : Kind :=
match cls e with
| AuthenticationErrorC => Authentication
| ForbiddenErrorC => Forbidden
| NotFoundErrorC => NotFound
| RateLimitErrorC => RateLimit
| RedditAPIErrorC =>
    match errorCode e with
    | Some code => if String.eqb code "SERVICE_UNAVAILABLE" then ServiceUnavailable else Unknown
    | None => Unknown
    end
| ErrorC => Unknown
end.

(** *** retryWithBackoff *)

(** The settled value of a promise. *)
Inductive Outcome (T : Type) : Type :=
| Returns (v : T)
| Throws (t : Thrown).

Arguments Returns {T} v.
Arguments Throws {T} t.

(** What the retry helper does to its environment: calls of [fn], draws of
    [Math.random()], and the arguments of [sleep], oldest first. *)
Record RetryWorld : Type := mkRetryWorld {
  invocations : nat;
  draws : nat;
  sleeps : list number
}.

Definition retryWorld0 : RetryWorld := mkRetryWorld 0 0 [].

(** [error instanceof Error ? error : new Error(String(error))] *)
Definition toError (error : Thrown) : Thrown :=
match error with
| TOther repr => TError (newError repr)
| _ => error
end.

(** [error instanceof AuthenticationError || error instanceof ForbiddenError
     || error instanceof NotFoundError] *)
Definition doNotRetry (error : Thrown) : bool :=
match error with
| TError e =>
    match cls e with
    | AuthenticationErrorC | ForbiddenErrorC | NotFoundErrorC => true
    | _ => false
    end
| _ => false
end.

(** [error instanceof RateLimitError] *)
Definition isRateLimitError (error : Thrown) : bool :=
match error with
| TError e => match cls e with RateLimitErrorC => true | _ => false end
| _ => false
end.

(** [error.retryAfter * 1000]; an absent field is [undefined], whose product
    is NaN. *)
Definition retryAfterMs (error : Thrown) : number :=
match error with
| TError e =>
    match retryAfter e with
    | Some r => nmul r 1000
    | None => NaN
    end
| _ => NaN
end.

(** [throw lastError || new Error('Max retries exceeded')] *)
Definition finalThrow (lastError : option Thrown) : Thrown :=
match lastError with
| Some e => e
| None => TError (newError "Max retries exceeded")
end.

Definition defaultMaxRetries : Z := 3.
Definition defaultBaseDelay : Q := 1000.

Section Retry.

Context {T : Type}.

(** [fn k] is the outcome of the call of [fn] that follows [k] earlier
    calls; [random k] is the value of the [k]-th [Math.random()]. *)
Variable fn : nat -> Outcome T.
Variable random : nat -> Q.
Variable maxRetries : Z.
Variable baseDelay : Q.

(** The [for] loop from the test [attempt <= maxRetries] on; [fuel] bounds
    the number of tests, and [None] as a result means it ran out. The delay
    is recorded as the exact value of its expression; the engine sleeps for
    that value rounded, see [delayInDoubles]. *)
Fixpoint retryLoop (fuel : nat) (attempt : Z) (lastError : option Thrown)
  (w : RetryWorld) : option (Outcome T) * RetryWorld :=
match fuel with
| O => (None, w)
| S fuel' =>
    if attempt <=? maxRetries then
      let w1 := mkRetryWorld (S (invocations w)) (draws w) (sleeps w) in
      match fn (invocations w) with
      | Returns v => (Some (Returns v), w1)
      | Throws error =>
          let lastError' := Some (toError error) in
          if doNotRetry error then (Some (Throws error), w1)
          else if attempt =? maxRetries then (Some (Throws (finalThrow lastError')), w1)
          else
            let delay := (baseDelay * 2 ^ attempt + random (draws w1) * 1000)%Q in
            let w2 := mkRetryWorld (invocations w1) (S (draws w1)) (sleeps w1) in
            let ms := if isRateLimitError error then retryAfterMs error else Num delay in
            let w3 := mkRetryWorld (invocations w2) (draws w2) (sleeps w2 ++ [ms]) in
            retryLoop fuel' (attempt + 1) lastError' w3
      end
    else (Some (Throws (finalThrow lastError)), w)
end.

Definition retryWithBackoff : option (Outcome T) * RetryWorld :=
retryLoop (S (Z.to_nat (maxRetries + 1))) 0 None retryWorld0.

End Retry.

(** [baseDelay * Math.pow(2, attempt) + Math.random() * 1000] as the engine
    computes it, [r] being the value [Math.random()] returned. *)
Definition delayInDoubles (baseDelay : float) (attempt : Z) (r : float) : float :=
(baseDelay * Double.pow2 attempt + r * 1000)%float.

(** *** Vocabulary for the retry loop's runs *)

(** The argument of the [sleep] that follows the failure [error] of call
    number [attempt], with [r] the value [Math.random()] returned. *)
Definition waitFor (baseDelay : Q) (r : Q) (attempt : nat) (error : Thrown) : number :=
if isRateLimitError error then retryAfterMs error
else Num (baseDelay * 2 ^ Z.of_nat attempt + r * 1000)%Q.

Section RetryRuns.

Context {T : Type}.
Variable fn : nat -> Outcome T.
Variable random : nat -> Q.
Variable maxRetries : Z.
Variable baseDelay : Q.

(** Every wait recorded in [w] follows a failed call that may be retried,
    and has the length the loop computes for it. *)
Definition waitsJustified (w : RetryWorld) : Prop :=
forall i, (i < List.length (sleeps w))%nat ->
  exists error, fn i = Throws error /\ doNotRetry error = false
    /\ nth i (sleeps w) NaN = waitFor baseDelay (random i) i error.

(** The loop is about to test [attempt <= maxRetries] with [attempt = k]. *)
Definition atAttempt (k : nat) (lastError : option Thrown) (w : RetryWorld) : Prop :=
invocations w = k /\ draws w = k /\ List.length (sleeps w) = k /\ waitsJustified w
/\ match k with
   | O => lastError = None
   | S j => exists error, fn j = Throws error /\ lastError = Some (toError error)
   end.

(** The helper has settled with [r], leaving [w]: the last call of [fn] is
    the first that returns, or throws an error that is not retried, or is
    call number [maxRetries]. *)
Definition finished (r : Outcome T) (w : RetryWorld) : Prop :=
draws w = List.length (sleeps w) /\ waitsJustified w /\
(maxRetries < 0 ->
   invocations w = O /\ sleeps w = []
   /\ r = Throws (TError (newError "Max retries exceeded"))) /\
(0 <= maxRetries ->
   invocations w = S (List.length (sleeps w)) /\
   Z.of_nat (List.length (sleeps w)) <= maxRetries /\
   match fn (List.length (sleeps w)) with
   | Returns v => r = Returns v
   | Throws error =>
       r = Throws (toError error) /\
       (doNotRetry error = true \/ Z.of_nat (List.length (sleeps w)) = maxRetries)
   end).

End RetryRuns.

(** *** validateConfig *)

Definition requiredVariables : list string :=
["REDDIT_CLIENT_ID"; "REDDIT_CLIENT_SECRET"; "REDDIT_USER_AGENT"].

Definition newline : string := String (ascii_of_nat 10) EmptyString.

(** [validateConfig(config)]; the record [config] is read through its
    lookup, [undefined] being [None]. *)
Definition validateConfig (config : string -> option string) : Outcome unit :=
let missing := filter (fun key => negb (truthy (config key))) requiredVariables in
if (0 <? List.length missing)%nat then
  Throws (TError (newError
    ("Missing required environment variables: " ++ String.concat ", " missing
     ++ newline ++ "Please check your .env file or environment configuration.")%string))
else Returns tt.

End ErrorHandler.

(** ** src/utils/rate-limiter.ts *)

Module RateLimiter.

(** Each call of [acquire()] creates one promise; its [resolve]/[reject]
    pair is named by the number of earlier [acquire()] calls. The calls of
    these callbacks are recorded in order. *)
Inductive Effect : Type :=
| Granted (id : nat)
| Pushed (id : nat)
| Resolved (id : nat)
| Rejected (id : nat) (msg : string).

(** A pending [setTimeout(cb, delay)]: when it was set and the delay it was
    given; [None] is a non-finite delay (division by a zero refill rate). *)
Record Timer : Type := mkTimer {
  setAt : Z;
  delay : option Z
}.

(** The five fields of the class, followed by the environment: the number
    of [acquire()] calls made so far, the timers not yet fired, and the
    record of [resolve()], [queue.push] and [reject()] calls. *)
Record t : Type := mk {
  tokens : Q;
  maxTokens : Q;
  refillRate : Q;
  lastRefill : Z;
  queue : list nat;
  calls : nat;
  timers : list Timer;
  history : list Effect
}.

Definition defaultRequestsPerMinute : Q := 60.

(** [constructor(requestsPerMinute)], run when [Date.now()] is [now]. *)
Definition new (requestsPerMinute : Q) (now : Z) : t :=
mk requestsPerMinute requestsPerMinute (requestsPerMinute / 60000)%Q now [] 0 [] [].

(** The arithmetic is exact here; [RateLimiterDouble] has it rounded. *)
Definition refillTokens (now : Z) (s : t) : t :=
let elapsed := now - lastRefill s in
let tokensToAdd := (inject_Z elapsed * refillRate s)%Q in
mk (Qmin (maxTokens s) (tokens s + tokensToAdd)%Q) (maxTokens s) (refillRate s) now
   (queue s) (calls s) (timers s) (history s).

(** [(1 - this.tokens) / this.refillRate], [None] when not finite. The
    quotient is exact here; [RateLimiterDouble] has it rounded. *)
Definition timeToNextToken (s : t) : option Q :=
if Qeq_bool (refillRate s) 0 then None
else Some ((1 - tokens s) / refillRate s)%Q.

Definition scheduleRefill (now : Z) (s : t) : t :=
match queue s with
| [] => s
| _ :: _ =>
    let tm := mkTimer now (option_map Qceiling (timeToNextToken s)) in
    mk (tokens s) (maxTokens s) (refillRate s) (lastRefill s)
       (queue s) (calls s) (timers s ++ [tm]) (history s)
end.

Inductive AcquireResult : Type :=
| Completed
| Pending.

(** [acquire()], run when [Date.now()] is [now]: whether the promise is
    already resolved when the call returns, and the new state. *)
Definition acquire (now : Z) (s : t) : AcquireResult * t :=
let s1 := refillTokens now s in
let id := calls s1 in
if Qle_bool 1 (tokens s1) then
  (Completed,
   mk (tokens s1 - 1)%Q (maxTokens s1) (refillRate s1) (lastRefill s1)
      (queue s1) (S id) (timers s1) (history s1 ++ [Granted id]))
else
  (Pending,
   scheduleRefill now
     (mk (tokens s1) (maxTokens s1) (refillRate s1) (lastRefill s1)
         (queue s1 ++ [id]) (S id) (timers s1) (history s1 ++ [Pushed id]))).

(** The [while] loop of [processQueue]: the remaining queue, the remaining
    tokens and the callbacks called. *)
Fixpoint drain (q : list nat) (tok : Q) : list nat * Q * list Effect :=
match q with
| [] => ([], tok, [])
| item :: rest =>
    if Qle_bool 1 tok then
      let '(q', tok', eff) := drain rest (tok - 1)%Q in
      (q', tok', Resolved item :: eff)
    else (q, tok, [])
end.

Definition processQueue (now : Z) (s : t) : t :=
let '(q', tok', eff) := drain (queue s) (tokens s) in
scheduleRefill now
  (mk tok' (maxTokens s) (refillRate s) (lastRefill s)
      q' (calls s) (timers s) (history s ++ eff)).

(** The callback given to [setTimeout], run when [Date.now()] is [now]. *)
Definition onTimeout (now : Z) (s : t) : t :=
processQueue now (refillTokens now s).

Record Status : Type := mkStatus {
  remaining : Z;
  total : Q
}.

Definition getStatus (now : Z) (s : t) : Status * t :=
let s1 := refillTokens now s in
(mkStatus (Qfloor (tokens s1)) (maxTokens s1), s1).

Definition resetMessage : string := "Rate limiter reset".

Definition reset (now : Z) (s : t) : t :=
mk (maxTokens s) (maxTokens s) (refillRate s) now
   [] (calls s) (timers s)
   (history s ++ map (fun item => Rejected item resetMessage) (queue s)).

(** What can happen to a limiter, each at a reading [now] of the clock. A
    timer event runs the oldest pending callback; without a pending timer
    nothing happens. *)
Inductive Event : Type :=
| EAcquire (now : Z)
| ETimeout (now : Z)
| EGetStatus (now : Z)
| EReset (now : Z).

Definition eventTime (ev : Event) : Z :=
match ev with
| EAcquire now | ETimeout now | EGetStatus now | EReset now => now
end.

Definition step (s : t) (ev : Event) : t :=
match ev with
| EAcquire now => snd (acquire now s)
| ETimeout now =>
    match timers s with
    | [] => s
    | _ :: rest =>
        onTimeout now
          (mk (tokens s) (maxTokens s) (refillRate s) (lastRefill s)
              (queue s) (calls s) rest (history s))
    end
| EGetStatus now => snd (getStatus now s)
| EReset now => reset now s
end.

Definition run (s : t) (evs : list Event) : t := fold_left step evs s.

(** The clock never runs backwards along a sequence of events. *)
Fixpoint chronological (from : Z) (evs : list Event) : Prop :=
match evs with
| [] => True
| ev :: rest => from <= eventTime ev /\ chronological (eventTime ev) rest
end.

(** Readings of the record of callbacks. *)
Definition pushedId (e : Effect) : option nat :=
match e with Pushed id => Some id | _ => None end.

Definition settledId (e : Effect) : option nat :=
match e with Resolved id | Rejected id _ => Some id | _ => None end.

Definition resolvedId (e : Effect) : option nat :=
match e with Resolved id => Some id | _ => None end.

Definition rejectedId (e : Effect) : option nat :=
match e with Rejected id _ => Some id | _ => None end.

Fixpoint pick {A B : Type} (f : A -> option B) (l : list A) : list B :=
match l with
| [] => []
| x :: r => match f x with Some y => y :: pick f r | None => pick f r end
end.

Definition pushed (s : t) : list nat := pick pushedId (history s).
Definition settled (s : t) : list nat := pick settledId (history s).
Definition resolved (s : t) : list nat := pick resolvedId (history s).
Definition rejected (s : t) : list nat := pick rejectedId (history s).

(** [a] occurs strictly before [b] in [l]. *)
Definition before {A : Type} (l : list A) (a b : A) : Prop :=
exists l1 l2 l3, l = l1 ++ a :: l2 ++ b :: l3.

(** The record of callbacks agrees with the queue: the waiters pushed so
    far are those settled so far followed by those still queued, and the
    names of the waiters are distinct. *)
Definition consistent (s : t) : Prop :=
pushed s = settled s ++ queue s
/\ Forall (fun id => (id < calls s)%nat) (pushed s)
/\ NoDup (pushed s).


(** The limiter [k] immediate acquisitions after its construction with a
    whole [capacity] at the instant [t0], the clock still reading [t0]. *)
Definition afterGrants (capacity : positive) (t0 : Z) (k : nat) (s : t) : Prop :=
(tokens s == inject_Z (Zpos capacity) - inject_Z (Z.of_nat k))%Q
/\ maxTokens s = inject_Z (Zpos capacity) /\ lastRefill s = t0
/\ queue s = [] /\ calls s = k /\ timers s = []
/\ history s = map Granted (seq 0 k).

(** [n] calls of [acquire()] in a row, all at the same reading of the
    clock. *)
Fixpoint acquireMany (n : nat) (now : Z) (s : t) : list AcquireResult * t :=
match n with
| O => ([], s)
| S k =>
    let '(r, s1) := acquire now s in
    let '(rs, s2) := acquireMany k now s1 in
    (r :: rs, s2)
end.

(** The calls of [acquire()] that were let through: at once, or from the
    queue. *)
Definition grantedId (e : Effect) : option nat :=
match e with Granted id | Resolved id => Some id | _ => None end.

Definition granted (s : t) : list nat := pick grantedId (history s).



(** One waiter, the second caller, queued behind a spent bucket of
    capacity one, [k] later callers having been let through by time [T]. *)
Definition starved (T : Z) (k : nat) (s : t) : Prop :=
(tokens s == 0)%Q /\ maxTokens s = 1%Q /\ refillRate s = (1 / 60000)%Q
/\ lastRefill s = T /\ queue s = [1%nat] /\ settled s = []
/\ List.length (granted s) = S k.

(** [n] rounds, one per minute: in each a new call of [acquire()] arrives
    and then a timer callback runs, both at the same reading of the clock. *)
Fixpoint minuteRounds (from : Z) (n : nat) : list Event :=
match n with
| O => []
| S k => EAcquire (from + 60000) :: ETimeout (from + 60000) :: minuteRounds (from + 60000) k
end.

End RateLimiter.

(** ** src/utils/rate-limiter.ts, in binary64

    The class of [RateLimiter] once more, with every arithmetic operation
    the one the engine performs. The callbacks, timers and events are those
    of [RateLimiter]. *)

Module RateLimiterDouble.

Import RateLimiter.

Record t : Type := mk {
  tokens : float;
  maxTokens : float;
  refillRate : float;
  lastRefill : Z;
  queue : list nat;
  calls : nat;
  timers : list Timer;
  history : list Effect
}.

Definition new (requestsPerMinute : float) (now : Z) : t :=
mk requestsPerMinute requestsPerMinute (requestsPerMinute / 60000)%float now [] O [] [].

Definition refillTokens (now : Z) (s : t) : t :=
let elapsed := Double.ofZ (now - lastRefill s) in
let tokensToAdd := (elapsed * refillRate s)%float in
mk (Double.min (maxTokens s) (tokens s + tokensToAdd)%float) (maxTokens s) (refillRate s) now
   (queue s) (calls s) (timers s) (history s).

(** [(1 - this.tokens) / this.refillRate] *)
Definition timeToNextToken (s : t) : float :=
((1 - tokens s) / refillRate s)%float.

Definition scheduleRefill (now : Z) (s : t) : t :=
match queue s with
| [] => s
| _ :: _ =>
    let tm := mkTimer now (Double.ceil (timeToNextToken s)) in
    mk (tokens s) (maxTokens s) (refillRate s) (lastRefill s)
       (queue s) (calls s) (timers s ++ [tm]) (history s)
end.

Definition acquire (now : Z) (s : t) : AcquireResult * t :=
let s1 := refillTokens now s in
let id := calls s1 in
if (1 <=? tokens s1)%float then
  (Completed,
   mk (tokens s1 - 1)%float (maxTokens s1) (refillRate s1) (lastRefill s1)
      (queue s1) (S id) (timers s1) (history s1 ++ [Granted id]))
else
  (Pending,
   scheduleRefill now
     (mk (tokens s1) (maxTokens s1) (refillRate s1) (lastRefill s1)
         (queue s1 ++ [id]) (S id) (timers s1) (history s1 ++ [Pushed id]))).

Fixpoint drain (q : list nat) (tok : float) : list nat * float * list Effect :=
match q with
| [] => ([], tok, [])
| item :: rest =>
    if (1 <=? tok)%float then
      let '(q', tok', eff) := drain rest (tok - 1)%float in
      (q', tok', Resolved item :: eff)
    else (q, tok, [])
end.

Definition processQueue (now : Z) (s : t) : t :=
let '(q', tok', eff) := drain (queue s) (tokens s) in
scheduleRefill now
  (mk tok' (maxTokens s) (refillRate s) (lastRefill s)
      q' (calls s) (timers s) (history s ++ eff)).

Definition onTimeout (now : Z) (s : t) : t :=
processQueue now (refillTokens now s).

(** [remaining] is [None] when the count is not finite. *)
Record Status : Type := mkStatus {
  remaining : option Z;
  total : float
}.

Definition getStatus (now : Z) (s : t) : Status * t :=
let s1 := refillTokens now s in
(mkStatus (Double.floor (tokens s1)) (maxTokens s1), s1).

Definition reset (now : Z) (s : t) : t :=
mk (maxTokens s) (maxTokens s) (refillRate s) now
   [] (calls s) (timers s)
   (history s ++ map (fun item => Rejected item resetMessage) (queue s)).

Definition step (s : t) (ev : Event) : t :=
match ev with
| EAcquire now => snd (acquire now s)
| ETimeout now =>
    match timers s with
    | [] => s
    | _ :: rest =>
        onTimeout now
          (mk (tokens s) (maxTokens s) (refillRate s) (lastRefill s)
              (queue s) (calls s) rest (history s))
    end
| EGetStatus now => snd (getStatus now s)
| EReset now => reset now s
end.

Definition run (s : t) (evs : list Event) : t := fold_left step evs s.

End RateLimiterDouble.

(** ** src/auth/reddit-auth.ts *)

Module RedditAuth.

Import ErrorHandler.

Record RedditConfig : Type := mkConfig {
  clientId : string;
  clientSecret : string;
  userAgent : string;
  username : option string;
  password : option string;
  configRefreshToken : option string;
  rateLimitPerMinute : Z;
  maxRetries : Z
}.

Record RedditAuthResponse : Type := mkAuthResponse {
  access_token : string;
  token_type : string;
  expires_in : Z;
  scope : string;
  refresh_token : option string
}.

(** A [POST] of the authorization client: its path and the form fields
    given to [URLSearchParams]. *)
Record Request : Type := mkRequest {
  url : string;
  params : list (string * string)
}.

(** How a request settles. Only the token endpoint's [response.data] is
    read; the revocation endpoint's is ignored. *)
Inductive Reply : Type :=
| Fulfilled (data : RedditAuthResponse)
| Failed (error : Thrown).

(** The authorization server and the network: given the number of earlier
    requests and the request, the milliseconds the exchange takes and how it
    settles. *)
Definition Server : Type := nat -> Request -> Z * Reply.

(** The three mutable fields of the class. *)
Record t : Type := mk {
  accessToken : option string;
  refreshToken : option string;
  tokenExpiry : Z
}.

(** The environment: the reading of [Date.now()], the requests sent so far
    and what was given to [console.error], oldest first. *)
Record World : Type := mkWorld {
  now : Z;
  sent : list Request;
  console : list Thrown
}.

(** A method body: a computation on the instance and its environment that
    returns or throws. A method runs without interleaving of other calls on
    the same instance. *)
Definition M (A : Type) : Type := t * World -> Outcome A * (t * World).

Definition ret {A : Type} (a : A) : M A :=
fun st => (Returns a, st).

Definition bind {A B : Type} (m : M A) (k : A -> M B) : M B :=
fun st =>
  match m st with
  | (Returns a, st') => k a st'
  | (Throws e, st') => (Throws e, st')
  end.

Definition throw {A : Type} (e : Thrown) : M A :=
fun st => (Throws e, st).

(** [try { m } catch (error) { h error }] *)
Definition tryCatch {A : Type} (m : M A) (h : Thrown -> M A) : M A :=
fun st =>
  match m st with
  | (Returns a, st') => (Returns a, st')
  | (Throws e, st') => h e st'
  end.

Notation "x <- m ;; k" := (bind m (fun x => k))
  (at level 61, m at next level, right associativity).

(** [constructor(config)] *)
Definition new (config : RedditConfig) : t :=
mk None
   (if truthy (configRefreshToken config) then configRefreshToken config else None)
   0.

Definition consoleError (error : Thrown) : M unit :=
fun '(s, w) => (Returns tt, (s, mkWorld (now w) (sent w) (console w ++ [error]))).

(** The string a [string | undefined] holds once it is known to be truthy. *)
Definition valueOf (v : option string) : string :=
match v with
| Some x => x
| None => EmptyString
end.

Section Methods.

Variable config : RedditConfig.
Variable server : Server.

(** [await this.authClient.post(url, params.toString())] *)
Definition post (req : Request) : M RedditAuthResponse :=
fun '(s, w) =>
  let '(elapsed, reply) := server (List.length (sent w)) req in
  let w' := mkWorld (now w + elapsed) (sent w ++ [req]) (console w) in
  match reply with
  | Fulfilled d => (Returns d, (s, w'))
  | Failed e => (Throws e, (s, w'))
  end.

Definition handleAuthResponse (d : RedditAuthResponse) : M string :=
fun '(s, w) =>
  let s' :=
    mk (Some (access_token d))
       (if truthy (refresh_token d) then refresh_token d else refreshToken s)
       (now w + expires_in d * 1000) in
  (Returns (access_token d), (s', w)).

Definition passwordRequest : Request :=
mkRequest "/api/v1/access_token"
  [("grant_type", "password");
   ("username", valueOf (username config));
   ("password", valueOf (password config))].

Definition authenticateWithPassword : M string :=
if negb (truthy (username config)) || negb (truthy (password config)) then
  throw (TError (newAuthenticationError
                   "Username and password are required for script authentication"))
else
  tryCatch
    (response <- post passwordRequest ;;
     handleAuthResponse response)
    (fun error => throw (TError (parseRedditError error))).

Definition refreshRequest (token : string) : Request :=
mkRequest "/api/v1/access_token"
  [("grant_type", "refresh_token"); ("refresh_token", token)].

Definition authenticateWithRefreshToken : M string :=
fun '(s, w) =>
  if negb (truthy (refreshToken s)) then
    throw (TError (newAuthenticationError "No refresh token available")) (s, w)
  else
    tryCatch
      (response <- post (refreshRequest (valueOf (refreshToken s))) ;;
       handleAuthResponse response)
      (fun error => throw (TError (parseRedditError error)))
      (s, w).

Definition getAccessToken : M string :=
fun '(s, w) =>
  if truthy (accessToken s) && (now w <? tokenExpiry s - 60000) then
    ret (valueOf (accessToken s)) (s, w)
  else if truthy (refreshToken s) then
    tryCatch authenticateWithRefreshToken
      (fun error =>
         _ <- consoleError error ;;
         authenticateWithPassword)
      (s, w)
  else authenticateWithPassword (s, w).

Definition isAuthenticated : M bool :=
fun '(s, w) =>
  (Returns (match accessToken s with Some _ => true | None => false end
            && (now w <? tokenExpiry s)),
   (s, w)).

Definition getRefreshToken : M (option string) :=
fun '(s, w) => (Returns (refreshToken s), (s, w)).

Definition setRefreshToken (token : string) : M unit :=
fun '(s, w) => (Returns tt, (mk (accessToken s) (Some token) (tokenExpiry s), w)).

Definition revokeRequest (token : string) : Request :=
mkRequest "/api/v1/revoke_token"
  [("token", token); ("token_type_hint", "access_token")].

Definition clearToken : M unit :=
fun '(s, w) => (Returns tt, (mk None (refreshToken s) 0, w)).

Definition revokeToken : M unit :=
fun '(s, w) =>
  if negb (truthy (accessToken s)) then ret tt (s, w)
  else
    tryCatch
      (_ <- post (revokeRequest (valueOf (accessToken s))) ;;
       clearToken)
      (fun error => throw (TError (parseRedditError error)))
      (s, w).

End Methods.

(** The environment once the request [req], sent in [w], has settled. *)
Definition afterRequest (server : Server) (w : World) (req : Request) : World :=
mkWorld (now w + fst (server (List.length (sent w)) req)) (sent w ++ [req]) (console w).

(** The instance once the token response [d] has been stored at the
    instant [at]. *)
Definition stored (s : t) (d : RedditAuthResponse) (at_ : Z) : t :=
mk (Some (access_token d))
   (if truthy (refresh_token d) then refresh_token d else refreshToken s)
   (at_ + expires_in d * 1000).

(** The request context handed to the tools: [axios.create] with the
    resource API as base URL and the bearer token as header. *)
Record AuthenticatedClient : Type := mkClient {
  baseURL : string;
  clientUserAgent : string;
  authorization : string
}.

Definition createAuthenticatedClient (config : RedditConfig) (server : Server)
  : M AuthenticatedClient :=
token <- getAccessToken config server ;;
ret (mkClient "https://oauth.reddit.com" (userAgent config) ("Bearer " ++ token)%string).

End RedditAuth.

(** ** src/tools/read.ts *)

Module ReadTools.

Import ErrorHandler.

(** [try { body } catch (error) { handler(error) }] on outcomes. *)
Definition catch {A : Type} (body : Outcome A) (handler : Thrown -> Outcome A) : Outcome A :=
match body with
| Returns a => Returns a
| Throws error => handler error
end.

(** [id.replace(/^t3_/, '')]: one leading [t3_] is removed. *)
Definition stripPrefix (id : string) : string :=
match id with
| String "t" (String "3" (String "_" rest)) => rest
| _ => id
end.

(** A [GET] of the API client: its path and its query parameters. *)
Record GetRequest : Type := mkGet {
  endpoint : string;
  query : list (string * string)
}.

(** How a [GET] settles; a fulfilled one carries [data.children] of the
    listing in [response.data], each child reduced to its [data]. *)
Inductive GetReply (Post : Type) : Type :=
| Fulfilled (children : list Post)
| Failed (error : Thrown).

Arguments Fulfilled {Post} children.
Arguments Failed {Post} error.

Section Posts.

Variable Post : Type.
Variable client : GetRequest -> GetReply Post.

Definition infoRequest (id : string) : GetRequest :=
mkGet "/api/info" [("id", "t3_" ++ stripPrefix id)%string].

(** [getPost(id)]: the request sent and the outcome. *)
Definition getPost (id : string) : GetRequest * Outcome Post :=
(infoRequest id,
 catch
   match client (infoRequest id) with
   | Fulfilled children =>
       match children with
       | [] => Throws (TError (newError ("Post not found: " ++ id)%string))
       | first :: _ => Returns first
       end
   | Failed error => Throws error
   end
   (fun error => Throws (TError (parseRedditError error)))).

End Posts.

Section Comments.

(** The fields of [item.data] other than [replies]. *)
Variable Data : Type.

#[local] Unset Elimination Schemes.

(** A child of a comment listing: its [kind], its [data], and
    [data.replies.data.children] when [data.replies] is a listing object
    that has children ([None] when it is the empty string, absent, or an
    object without them). *)
Inductive Item : Type :=
| mkItem (kind : string) (data : Data) (replies : option (list Item)).

#[local] Set Elimination Schemes.

(** [{ ...item.data, depth }] *)
Record RedditComment : Type := mkComment {
  commentData : Data;
  depth : Z
}.

(** [processComment(item, depth)]: what the shared array [comments] holds
    after the call. *)
Fixpoint processComment (item : Item) (d : Z) (comments : list RedditComment)
  : list RedditComment :=
match item with
| mkItem kind data replies =>
    if String.eqb kind "t1" then
      let comments1 := comments ++ [mkComment data d] in
      match replies with
      | Some children =>
          fold_left (fun acc reply => processComment reply (d + 1) acc) children comments1
      | None => comments1
      end
    else comments
end.

Definition flattenComments (children : list Item) : list RedditComment :=
fold_left (fun acc item => processComment item 0 acc) children [].

(** A comment moved [k] levels down. *)
Definition deepen (k : Z) (c : RedditComment) : RedditComment :=
mkComment (commentData c) (depth c + k).

(** Along [l], read after an entry of depth [prev], the depth never rises
    by more than one from an entry to the next. *)
Fixpoint steps (prev : Z) (l : list RedditComment) : Prop :=
match l with
| [] => True
| c :: rest => depth c <= prev + 1 /\ steps (depth c) rest
end.

(** The depth of the last entry of [l], [prev] when there is none. *)
Definition lastDepth (prev : Z) (l : list RedditComment) : Z :=
last (map depth l) prev.

(** The [t1] items of a tree that are reached through [t1] items only. *)
Fixpoint reachable (item : Item) : nat :=
match item with
| mkItem kind data replies =>
    if String.eqb kind "t1" then
      S (match replies with
         | Some children => fold_right (fun reply n => (reachable reply + n)%nat) O children
         | None => O
         end)
    else O
end.

End Comments.

Arguments mkItem {Data} kind data replies.
Arguments mkComment {Data} commentData depth.
Arguments commentData {Data} r.
Arguments depth {Data} r.
Arguments processComment {Data} item d comments.
Arguments flattenComments {Data} children.
Arguments deepen {Data} k c.
Arguments steps {Data} prev l.
Arguments lastDepth {Data} prev l.
Arguments reachable {Data} item.

End ReadTools.

(** ** src/utils/image-upload.ts *)

Module ImageUpload.

Import ErrorHandler.

Inductive Service : Type :=
| catbox
| imgbb.

Record ImageUploadResult : Type := mkResult {
  url : string;
  delete_url : option string;
  service : Service
}.

(** [s.split(sep)] for a separator of one character. *)
Fixpoint split (sep : ascii) (s : string) : list string :=
match s with
| EmptyString => [EmptyString]
| String c rest =>
    if Ascii.eqb c sep then EmptyString :: split sep rest
    else
      match split sep rest with
      | head :: tail => String c head :: tail
      | [] => [String c EmptyString]
      end
end.

(** [array.pop()]: the last element, [undefined] on an empty array. *)
Fixpoint pop (l : list string) : option string :=
match l with
| [] => None
| [x] => Some x
| _ :: rest => pop rest
end.

Definition lowerChar (c : ascii) : ascii :=
let n := nat_of_ascii c in
if ((65 <=? n) && (n <=? 90))%nat then ascii_of_nat (n + 32) else c.

(** [s.toLowerCase()] on the letters A to Z. A letter outside ASCII never
    lowers to a text that is one of the extensions below, so the switch is
    decided in the same way. *)
Fixpoint toLowerCase (s : string) : string :=
match s with
| EmptyString => EmptyString
| String c rest => String (lowerChar c) (toLowerCase rest)
end.

Definition getContentType (filename : string) : string :=
match option_map toLowerCase (pop (split "." filename)) with
| Some ext =>
    if String.eqb ext "png" then "image/png"
    else if String.eqb ext "jpg" || String.eqb ext "jpeg" then "image/jpeg"
    else if String.eqb ext "gif" then "image/gif"
    else if String.eqb ext "webp" then "image/webp"
    else "image/jpeg"
| None => "image/jpeg"
end.

(** The image data, a [Buffer]. *)
Definition Buffer : Type := list Byte.byte.

(** A value appended to a [FormData]. *)
Inductive FieldValue : Type :=
| Text (value : string)
| File (content : Buffer) (filename contentType : string)
| Base64 (content : Buffer).

(** A [POST] of the global [axios]: its URL and its form. *)
Record PostRequest : Type := mkPost {
  target : string;
  form : list (string * FieldValue)
}.

Inductive Reply (A : Type) : Type :=
| Fulfilled (data : A)
| Failed (error : Thrown).

Arguments Fulfilled {A} data.
Arguments Failed {A} error.

(** What ImgBB answers: [data.data.url] and [data.data.delete_url]. *)
Record ImgBBData : Type := mkImgBBData {
  data_url : string;
  data_delete_url : option string
}.

(** The requests sent so far and what was given to [console.warn], oldest
    first. *)
Record World : Type := mkWorld {
  sent : list PostRequest;
  warnings : list Thrown
}.

Definition M (A : Type) : Type := World -> Outcome A * World.

Definition ret {A : Type} (a : A) : M A :=
fun w => (Returns a, w).

Definition bind {A B : Type} (m : M A) (k : A -> M B) : M B :=
fun w =>
  match m w with
  | (Returns a, w') => k a w'
  | (Throws e, w') => (Throws e, w')
  end.

Definition throw {A : Type} (e : Thrown) : M A :=
fun w => (Throws e, w).

Definition tryCatch {A : Type} (m : M A) (h : Thrown -> M A) : M A :=
fun w =>
  match m w with
  | (Returns a, w') => (Returns a, w')
  | (Throws e, w') => h e w'
  end.

Notation "x <- m ;; k" := (bind m (fun x => k))
  (at level 61, m at next level, right associativity).

Definition consoleWarn (error : Thrown) : M unit :=
fun w => (Returns tt, mkWorld (sent w) (warnings w ++ [error])).

Definition post {A : Type} (api : PostRequest -> Reply A) (req : PostRequest) : M A :=
fun w =>
  let w' := mkWorld (sent w ++ [req]) (warnings w) in
  match api req with
  | Fulfilled d => (Returns d, w')
  | Failed e => (Throws e, w')
  end.

(** The string an optional string holds once it is known to be truthy. *)
Definition valueOf (v : option string) : string :=
match v with
| Some x => x
| None => EmptyString
end.

Section Upload.

(** [String.prototype.trim]. *)
Variable trim : string -> string.

(** The two hosting services, each answering in the shape the code reads:
    Catbox with a text, ImgBB with a JSON document. *)
Variable catboxApi : PostRequest -> Reply string.
Variable imgbbApi : PostRequest -> Reply ImgBBData.

Definition catboxRequest (imageBuffer : Buffer) (filename : string) : PostRequest :=
mkPost "https://catbox.moe/user/api.php"
  [("reqtype", Text "fileupload");
   ("fileToUpload", File imageBuffer filename (getContentType filename))].

Definition uploadToCatbox (imageBuffer : Buffer) (filename : string) : M ImageUploadResult :=
tryCatch
  (response <- post catboxApi (catboxRequest imageBuffer filename) ;;
   ret (mkResult (trim response) None catbox))
  (fun error => throw (TError (parseRedditError error))).

Definition imgbbRequest (imageBuffer : Buffer) (apiKey : string) : PostRequest :=
mkPost ("https://api.imgbb.com/1/upload?key=" ++ apiKey)%string
  [("image", Base64 imageBuffer)].

Definition uploadToImgBB (imageBuffer : Buffer) (apiKey : string) : M ImageUploadResult :=
tryCatch
  (response <- post imgbbApi (imgbbRequest imageBuffer apiKey) ;;
   ret (mkResult (data_url response) (data_delete_url response) imgbb))
  (fun error => throw (TError (parseRedditError error))).

Definition uploadImage (imageBuffer : Buffer) (filename : string)
  (imgbbApiKey : option string) : M ImageUploadResult :=
tryCatch
  (uploadToCatbox imageBuffer filename)
  (fun catboxError =>
     _ <- consoleWarn catboxError ;;
     if truthy imgbbApiKey then uploadToImgBB imageBuffer (valueOf imgbbApiKey)
     else throw (TError (newError
                   "Image upload failed and no ImgBB API key provided for fallback"))).

End Upload.

End ImageUpload.

(** * Properties *)

(** ** Error classifier and retry helper *)

Module ErrorHandlerProofs.

Import ErrorHandler.

(** *** parseInt on decimal numerals *)

Ltac eval_digit :=
  cbn [NilEmpty.string_of_uint readDigits Pos.of_uint_acc Pos.of_uint];
  lazymatch goal with
  | |- context [digitValue ?c] =>
      let v := eval vm_compute in (digitValue c) in
      change (digitValue c) with v; cbv iota beta
  | _ => idtac
  end.

Lemma readDigits_pos_acc (d : Decimal.uint) :
  forall p : positive,
    readDigits (NilEmpty.string_of_uint d) (Some (Zpos p))
    = Some (Zpos (Pos.of_uint_acc d p)).
Proof.
  induction d; intros p; eval_digit; try reflexivity;
    match goal with
    | |- readDigits _ (Some ?a) = Some (Zpos (Pos.of_uint_acc _ ?q)) =>
        replace a with (Zpos q) by lia; apply IHd
    end.
Qed.

Lemma readDigits_zero_acc (d : Decimal.uint) :
  readDigits (NilEmpty.string_of_uint d) (Some 0) = Some (Z.of_N (Pos.of_uint d)).
Proof.
  induction d; eval_digit; try reflexivity; try exact IHd;
    match goal with
    | |- readDigits _ (Some ?a) = Some (Z.of_N (Npos (Pos.of_uint_acc _ ?q))) =>
        replace a with (Zpos q) by lia; apply readDigits_pos_acc
    end.
Qed.

Lemma readDigits_fresh (d : Decimal.uint) :
  d <> Decimal.Nil ->
  readDigits (NilEmpty.string_of_uint d) None = Some (Z.of_N (Pos.of_uint d)).
Proof.
  destruct d; intros Hd; try congruence; eval_digit;
    first [ apply readDigits_zero_acc | apply readDigits_pos_acc ].
Qed.

Lemma to_uint_nonnil (n : N) : N.to_uint n <> Decimal.Nil.
Proof.
  destruct n as [|p]; simpl; [discriminate | apply DecimalPos.Unsigned.to_uint_nonnil].
Qed.

Lemma string_of_uint_head (d : Decimal.uint) :
  d <> Decimal.Nil ->
  exists c r, NilEmpty.string_of_uint d = String c r
              /\ isWhiteSpace c = false /\ c <> "-"%char /\ c <> "+"%char.
Proof.
  destruct d; intros Hd; try congruence; simpl;
    eexists; eexists; (split; [reflexivity | split; [reflexivity | split; discriminate]]).
Qed.

Lemma numeral_NilEmpty (n : N) :
  NilZero.string_of_uint (N.to_uint n) = NilEmpty.string_of_uint (N.to_uint n).
Proof.
  pose proof (to_uint_nonnil n) as Hn.
  unfold NilZero.string_of_uint. destruct (N.to_uint n); congruence.
Qed.

(** [parseInt] reads back the decimal numeral of every natural number. *)
Lemma parseInt10_decimal (n : N) :
  parseInt10 (NilZero.string_of_uint (N.to_uint n)) = Some (Z.of_N n).
Proof.
  pose proof (to_uint_nonnil n) as Hn.
  rewrite numeral_NilEmpty.
  destruct (string_of_uint_head _ Hn) as (c & r & Hcr & Hw & Hm & Hp).
  unfold parseInt10.
  assert (Hskip : skipWhiteSpace (NilEmpty.string_of_uint (N.to_uint n))
                  = NilEmpty.string_of_uint (N.to_uint n)).
  { rewrite Hcr. simpl. rewrite Hw. reflexivity. }
  rewrite Hskip.
  assert (Hsig : match NilEmpty.string_of_uint (N.to_uint n) with
                 | String "-" r0 => (-1, r0)
                 | String "+" r0 => (1, r0)
                 | _ => (1, NilEmpty.string_of_uint (N.to_uint n))
                 end = (1, NilEmpty.string_of_uint (N.to_uint n))).
  { rewrite Hcr.
    destruct c as [b0 b1 b2 b3 b4 b5 b6 b7].
    destruct b0, b1, b2, b3, b4, b5, b6, b7; try reflexivity; congruence. }
  rewrite Hsig.
  rewrite (readDigits_fresh _ Hn).
  change (Pos.of_uint (N.to_uint n)) with (N.of_uint (N.to_uint n)).
  rewrite DecimalN.Unsigned.of_to.
  f_equal. lia.
Qed.

Lemma orElse_numeral (n : N) (d : string) :
  orElse (Some (NilZero.string_of_uint (N.to_uint n))) d
  = NilZero.string_of_uint (N.to_uint n).
Proof.
  rewrite numeral_NilEmpty.
  destruct (string_of_uint_head _ (to_uint_nonnil n)) as (c & r & Hcr & _).
  rewrite Hcr. reflexivity.
Qed.

(** *** The classifier *)

Ltac by_status r :=
  unfold parseRedditError, statusIs, option_map, kindOf;
  repeat match goal with
         | |- context [Z.eqb (status r) ?k] =>
             destruct (Z.eqb_spec (status r) k); try lia
         end.

(** C6. [parseRedditError] classifies an error that carries an HTTP response
    by the response's status: 401 gives an [AuthenticationError], 403 a
    [ForbiddenError], 404 a [NotFoundError]; 429 gives a [RateLimitError]
    whose [retryAfter] is 60 when there is no retry-after header and [n]
    when the header is the decimal numeral of [n] (numerals a double holds
    exactly); 500, 502, 503 and 504 give a service-unavailable error; every
    other status gives an unknown error. *)
Theorem parseRedditError_classifies_by_status (r : AxiosResponse) (msg : string) :
  let e := parseRedditError (TAxios (Some r) msg) in
  (status r = 401 -> kindOf e = Authentication /\ cls e = AuthenticationErrorC) /\
  (status r = 403 -> kindOf e = Forbidden /\ cls e = ForbiddenErrorC) /\
  (status r = 404 -> kindOf e = NotFound /\ cls e = NotFoundErrorC) /\
  (status r = 429 ->
     kindOf e = RateLimit /\ cls e = RateLimitErrorC /\
     (header_retry_after r = None -> retryAfter e = Some (Num 60)) /\
     (forall n : N,
        header_retry_after r = Some (NilZero.string_of_uint (N.to_uint n)) ->
        Z.of_N n <= 2 ^ 53 ->
        retryAfter e = Some (Num (inject_Z (Z.of_N n))))) /\
  (In (status r) [500; 502; 503; 504] ->
     kindOf e = ServiceUnavailable /\ statusCode e = Some (status r)) /\
  (~ In (status r) [401; 403; 404; 429; 500; 502; 503; 504] ->
     kindOf e = Unknown /\ statusCode e = Some (status r)).
Proof.
  cbv zeta.
  split; [| split; [| split; [| split; [| split]]]].
  - intros H. by_status r. split; reflexivity.
  - intros H. by_status r. split; reflexivity.
  - intros H. by_status r. split; reflexivity.
  - intros H.
    split; [by_status r; reflexivity |].
    split; [by_status r; reflexivity |].
    split.
    + intros Hh. by_status r. rewrite Hh. reflexivity.
    + intros n Hh _. by_status r. rewrite Hh, orElse_numeral, parseInt10_decimal.
      reflexivity.
  - intros H. simpl in H.
    by_status r; cbn; split; reflexivity.
  - intros H. simpl in H.
    by_status r; try (exfalso; apply H; tauto); cbn; split; reflexivity.
Qed.

Lemma parseRedditError_classifies_by_status_witness :
  let e := parseRedditError (TAxios (Some (mkResponse 429 None (Some "120"))) "Request failed") in
  kindOf e = RateLimit /\ retryAfter e = Some (Num 120).
Proof.
  destruct (parseRedditError_classifies_by_status
              (mkResponse 429 None (Some "120")) "Request failed")
    as (_ & _ & _ & H429 & _).
  destruct (H429 eq_refl) as (Hkind & _ & _ & Hnum).
  split; [exact Hkind |].
  apply (Hnum 120%N); [reflexivity | vm_compute; discriminate].
Defined.

(** *** The retry loop *)

Lemma toError_terminal (error : Thrown) :
  doNotRetry error = true -> toError error = error.
Proof. destruct error; simpl; congruence. Qed.

Section RetryProofs.

Context {T : Type}.
Variable fn : nat -> Outcome T.
Variable random : nat -> Q.
Variable maxRetries : Z.
Variable baseDelay : Q.

(** From any test of the loop condition, with fuel for the attempts that
    are left, the loop settles and its run is a [finished] one. *)
Lemma retryLoop_finishes (fuel : nat) :
  forall (k : nat) (lastError : option Thrown) (w : RetryWorld),
    atAttempt fn random baseDelay k lastError w ->
    Z.of_nat k <= Z.max 0 maxRetries ->
    Z.max 0 (maxRetries + 1 - Z.of_nat k) < Z.of_nat fuel ->
    exists r w', retryLoop fn random maxRetries baseDelay fuel (Z.of_nat k) lastError w
                 = (Some r, w')
                 /\ finished fn random maxRetries baseDelay r w'.
Proof.
  induction fuel as [|fuel IH]; intros k lastError w Hat Hk Hfuel.
  - exfalso. lia.
  - destruct Hat as (Hinv & Hdr & Hlen & Hwaits & Hlast).
    cbn [retryLoop].
    destruct (Z.leb_spec (Z.of_nat k) maxRetries) as [Hle | Hgt].
    + rewrite Hinv.
      destruct (fn k) as [v | error] eqn:Hfn.
      * eexists; eexists; split; [reflexivity |].
        unfold finished; cbn [invocations draws sleeps].
        split; [lia |]. split; [assumption |]. split; [intros; lia |].
        intros _. split; [lia |]. split; [lia |].
        rewrite Hlen, Hfn. reflexivity.
      * destruct (doNotRetry error) eqn:Hterm.
        { eexists; eexists; split; [reflexivity |].
          unfold finished; cbn [invocations draws sleeps].
          split; [lia |]. split; [assumption |]. split; [intros; lia |].
          intros _. split; [lia |]. split; [lia |].
          rewrite Hlen, Hfn, (toError_terminal _ Hterm). split; [reflexivity | auto]. }
        destruct (Z.eqb_spec (Z.of_nat k) maxRetries) as [Heq | Hne].
        { eexists; eexists; split; [reflexivity |].
          unfold finished; cbn [invocations draws sleeps finalThrow].
          split; [lia |]. split; [assumption |]. split; [intros; lia |].
          intros _. split; [lia |]. split; [lia |].
          rewrite Hlen, Hfn. split; [reflexivity | right; lia]. }
        replace (Z.of_nat k + 1) with (Z.of_nat (S k)) by lia.
        apply IH; try lia.
        unfold atAttempt; cbn [invocations draws sleeps].
        rewrite length_app; cbn [List.length].
        split; [lia |]. split; [lia |]. split; [lia |]. split.
        { intros i Hi. cbn [sleeps] in Hi |- *.
          rewrite length_app in Hi; cbn [List.length] in Hi.
          destruct (Nat.eq_dec i k) as [-> | Hik].
          - exists error. split; [assumption |]. split; [assumption |].
            rewrite app_nth2 by lia. rewrite Hlen, Nat.sub_diag. cbn [nth].
            unfold waitFor. rewrite Hdr. reflexivity.
          - destruct (Hwaits i ltac:(lia)) as (e' & He1 & He2 & He3).
            exists e'. split; [assumption |]. split; [assumption |].
            rewrite app_nth1 by lia. exact He3. }
        exists error. split; [assumption | reflexivity].
    + assert (Hneg : maxRetries < 0 /\ k = O) by lia.
      destruct Hneg as [Hneg ->].
      eexists; eexists; split; [reflexivity |].
      unfold finished.
      split; [lia |]. split; [assumption |]. split; [| intros; lia].
      intros _. split; [assumption |].
      split; [destruct (sleeps w); [reflexivity | discriminate] |].
      rewrite Hlast. reflexivity.
Qed.

(** The helper always settles: the fuel it is given is never used up. *)
Lemma retryWithBackoff_finishes :
  exists r w, retryWithBackoff fn random maxRetries baseDelay = (Some r, w)
              /\ finished fn random maxRetries baseDelay r w.
Proof.
  unfold retryWithBackoff.
  apply (retryLoop_finishes _ O None retryWorld0).
  - unfold atAttempt, waitsJustified; cbn. repeat split; try reflexivity.
    intros i Hi. inversion Hi.
  - lia.
  - lia.
Qed.

End RetryProofs.

Lemma kind_not_retried (e : ErrorObj) :
  In (kindOf e) [Authentication; Forbidden; NotFound] -> doNotRetry (TError e) = true.
Proof.
  unfold kindOf, doNotRetry. intros H.
  destruct (cls e); try reflexivity; simpl in H.
  - intuition discriminate.
  - destruct (errorCode e) as [code|]; [destruct (String.eqb code _) |];
      intuition discriminate.
  - intuition discriminate.
Qed.

Lemma kind_rate_limit (e : ErrorObj) :
  kindOf e = RateLimit <-> isRateLimitError (TError e) = true.
Proof.
  unfold kindOf, isRateLimitError.
  destruct (cls e); try (split; (reflexivity || discriminate)).
  destruct (errorCode e) as [code|]; [destruct (String.eqb code _) |];
    split; discriminate.
Qed.

Lemma kind_service_unavailable (e : ErrorObj) :
  kindOf e = ServiceUnavailable ->
  doNotRetry (TError e) = false /\ isRateLimitError (TError e) = false.
Proof.
  unfold kindOf, doNotRetry, isRateLimitError.
  destruct (cls e); try discriminate. intros _. split; reflexivity.
Qed.

(** C7 (amended). [retryWithBackoff]: (1) when [fn] throws an error of kind
    Authentication, Forbidden or NotFound it is called once and that error
    is rethrown as it is, and the same holds at any later call whose
    predecessors failed with errors that are retried: no further call is
    made; (2) with [maxRetries = 3] and the default base delay, two
    service-unavailable failures followed by a success give the success
    value after three calls, with two waits, the first between 1000 and 2000
    ms and the second between 2000 and 3000 ms; (3) the helper always
    settles, and every wait follows a failed call, is followed by another
    call, lasts the error's [retryAfter] seconds for a rate-limit error (a
    whole number of seconds whose milliseconds a double holds exactly) and,
    otherwise, [baseDelay * 2^attempt] plus a jitter of at most 1000 ms (for
    a whole, non-negative [baseDelay] and sums a double holds exactly); (4)
    when every call up to number [maxRetries] fails, [fn] is called
    [maxRetries + 1] times and the error of the last call is thrown. *)
Theorem retryWithBackoff_policy :
  forall (T : Type) (fn : nat -> Outcome T) (random : nat -> Q) (baseDelay : Q),
    (forall k, (0 <= random k /\ random k < 1)%Q) ->
    (forall (maxRetries : Z) (e : ErrorObj),
        0 <= maxRetries ->
        fn O = Throws (TError e) ->
        In (kindOf e) [Authentication; Forbidden; NotFound] ->
        retryWithBackoff fn random maxRetries baseDelay
        = (Some (Throws (TError e)), mkRetryWorld 1 0 []))
    /\
    (forall (maxRetries : Z) (k : nat) (e : ErrorObj),
        Z.of_nat k <= maxRetries ->
        (forall i, (i < k)%nat ->
           exists error, fn i = Throws error /\ doNotRetry error = false) ->
        fn k = Throws (TError e) ->
        In (kindOf e) [Authentication; Forbidden; NotFound] ->
        exists w,
          retryWithBackoff fn random maxRetries baseDelay = (Some (Throws (TError e)), w)
          /\ invocations w = S k /\ List.length (sleeps w) = k)
    /\
    (forall (e0 e1 : ErrorObj) (v : T),
        fn 0%nat = Throws (TError e0) -> kindOf e0 = ServiceUnavailable ->
        fn 1%nat = Throws (TError e1) -> kindOf e1 = ServiceUnavailable ->
        fn 2%nat = Returns v ->
        exists wait0 wait1 : Q,
          retryWithBackoff fn random 3 defaultBaseDelay
          = (Some (Returns v), mkRetryWorld 3 2 [Num wait0; Num wait1])
          /\ (1000 <= wait0 /\ wait0 <= 2000)%Q
          /\ (2000 <= wait1 /\ wait1 <= 3000)%Q)
    /\
    (forall (maxRetries : Z) (r : option (Outcome T)) (w : RetryWorld),
        retryWithBackoff fn random maxRetries baseDelay = (r, w) ->
        (exists outcome, r = Some outcome) /\
        (invocations w <= S (List.length (sleeps w)))%nat /\
        forall i, (i < List.length (sleeps w))%nat ->
          (S i < invocations w)%nat /\
          exists error, fn i = Throws error /\
            (forall (e : ErrorObj) (n : Z),
                error = TError e -> kindOf e = RateLimit ->
                retryAfter e = Some (Num (inject_Z n)) ->
                Z.abs (n * 1000) <= 2 ^ 53 ->
                nth i (sleeps w) NaN = Num (inject_Z n * 1000)%Q) /\
            ((forall e, error = TError e -> kindOf e <> RateLimit) ->
             forall b : Z,
               baseDelay = inject_Z b -> 0 <= b ->
               b * 2 ^ Z.of_nat i + 1000 <= 2 ^ 53 ->
               exists jitter : Q,
                 (0 <= jitter /\ jitter <= 1000)%Q /\
                 nth i (sleeps w) NaN
                 = Num (baseDelay * 2 ^ Z.of_nat i + jitter)%Q))
    /\
    (forall (maxRetries : Z),
        0 <= maxRetries ->
        (forall i, Z.of_nat i <= maxRetries ->
           exists error, fn i = Throws error /\ doNotRetry error = false) ->
        exists error w,
          fn (Z.to_nat maxRetries) = Throws error /\
          retryWithBackoff fn random maxRetries baseDelay
          = (Some (Throws (toError error)), w) /\
          invocations w = S (Z.to_nat maxRetries) /\
          (forall e, error = TError e -> toError error = error)).
Proof.
  intros T fn random baseDelay Hrandom.
  split; [| split; [| split; [| split]]].
  - intros maxRetries e Hmax Hfn Hkind.
    destruct (retryWithBackoff_finishes fn random maxRetries baseDelay)
      as (r & w & Hrun & Hdraws & Hwaits & _ & Hpos).
    destruct (Hpos Hmax) as (Hinv & _ & Hlast).
    rewrite Hrun.
    destruct w as [inv dr sl]; cbn [invocations draws sleeps] in *.
    destruct sl as [|x sl].
    + cbn [List.length] in *. rewrite Hfn in Hlast. destruct Hlast as [-> _].
      subst. reflexivity.
    + exfalso.
      destruct (Hwaits O) as (error & Herr & Hno & _); [cbn; lia |].
      rewrite Hfn in Herr. inversion Herr; subst error.
      rewrite (kind_not_retried e Hkind) in Hno. discriminate.
  - intros maxRetries k e Hk Hearlier Hfn Hkind.
    destruct (retryWithBackoff_finishes fn random maxRetries baseDelay)
      as (r & w & Hrun & Hdraws & Hwaits & _ & Hpos).
    destruct (Hpos ltac:(lia)) as (Hinv & Hle & Hlast).
    pose proof (kind_not_retried e Hkind) as Hterm.
    assert (Hn : List.length (sleeps w) = k).
    { destruct (lt_eq_lt_dec (List.length (sleeps w)) k) as [[Hlt | Heq] | Hgt].
      - exfalso. destruct (Hearlier _ Hlt) as (error & Herr & Hno).
        rewrite Herr in Hlast. destruct Hlast as [_ [H | H]]; [congruence | lia].
      - exact Heq.
      - exfalso. destruct (Hwaits k Hgt) as (error & Herr & Hno & _).
        rewrite Hfn in Herr. inversion Herr; subst error. congruence. }
    exists w. rewrite Hn in Hlast, Hinv. rewrite Hfn in Hlast.
    destruct Hlast as [-> _]. cbn [toError].
    split; [exact Hrun |]. split; [exact Hinv | exact Hn].
  - intros e0 e1 v Hf0 Hk0 Hf1 Hk1 Hf2.
    destruct (kind_service_unavailable e0 Hk0) as [Hn0 Hr0].
    destruct (kind_service_unavailable e1 Hk1) as [Hn1 Hr1].
    exists (defaultBaseDelay * 2 ^ 0 + random 0%nat * 1000)%Q,
           (defaultBaseDelay * 2 ^ 1 + random 1%nat * 1000)%Q.
    split.
    + destruct (retryWithBackoff_finishes fn random 3 defaultBaseDelay)
        as (r & w & Hrun & Hdraws & Hwaits & _ & Hpos).
      destruct (Hpos ltac:(lia)) as (Hinv & Hle & Hlast).
      rewrite Hrun.
      destruct w as [inv dr sl]; cbn [invocations draws sleeps] in *.
      destruct sl as [|x0 [|x1 [|x2 sl]]]; cbn [List.length] in *.
      * rewrite Hf0 in Hlast. destruct Hlast as [_ [H | H]]; [congruence | lia].
      * rewrite Hf1 in Hlast. destruct Hlast as [_ [H | H]]; [congruence | lia].
      * rewrite Hf2 in Hlast. subst r inv dr.
        destruct (Hwaits 0%nat) as (a0 & Ha0 & _ & Hw0); [cbn; lia |].
        destruct (Hwaits 1%nat) as (a1 & Ha1 & _ & Hw1); [cbn; lia |].
        rewrite Hf0 in Ha0; inversion Ha0; subst a0.
        rewrite Hf1 in Ha1; inversion Ha1; subst a1.
        cbn [nth sleeps] in Hw0, Hw1. unfold waitFor in Hw0, Hw1.
        rewrite Hr0 in Hw0. rewrite Hr1 in Hw1. subst x0 x1.
        reflexivity.
      * exfalso.
        destruct (Hwaits 2%nat) as (a2 & Ha2 & _); [cbn; lia |].
        rewrite Hf2 in Ha2. discriminate.
    + destruct (Hrandom 0%nat) as [H0 H0'].
      destruct (Hrandom 1%nat) as [H1 H1'].
      unfold defaultBaseDelay.
      change (2 ^ 0)%Q with 1%Q.
      change (2 ^ 1)%Q with 2%Q.
      split; split; lra.
  - intros maxRetries r w Hret.
    destruct (retryWithBackoff_finishes fn random maxRetries baseDelay)
      as (r' & w' & Hrun & Hdraws & Hwaits & Hneg & Hpos).
    rewrite Hrun in Hret. inversion Hret; subst r w; clear Hret.
    split; [exists r'; reflexivity |].
    assert (Hcount : invocations w' = O /\ sleeps w' = []
                     \/ invocations w' = S (List.length (sleeps w'))).
    { destruct (Z.lt_ge_cases maxRetries 0) as [Hlt | Hge].
      - left. destruct (Hneg Hlt) as (Hi & Hs & _). auto.
      - right. destruct (Hpos Hge) as (Hi & _). exact Hi. }
    split; [destruct Hcount as [[Hi Hs] | Hi]; lia |].
    intros i Hi.
    split.
    { destruct Hcount as [[Hc Hs] | Hc]; [rewrite Hs in Hi; inversion Hi | lia]. }
    destruct (Hwaits i Hi) as (error & Herr & Hno & Hw).
    exists error. split; [exact Herr |]. split.
    + intros e n -> Hkind Hra _.
      rewrite Hw. unfold waitFor.
      apply kind_rate_limit in Hkind. rewrite Hkind.
      unfold retryAfterMs. rewrite Hra. reflexivity.
    + intros Hother b _ _ _.
      exists (random i * 1000)%Q.
      destruct (Hrandom i) as [Hr0 Hr1].
      split; [split; lra |].
      rewrite Hw. unfold waitFor.
      destruct (isRateLimitError error) eqn:Hrl; [| reflexivity].
      exfalso. destruct error as [resp m | e | repr]; try discriminate.
      apply (Hother e eq_refl). apply kind_rate_limit. exact Hrl.
  - intros maxRetries Hmax Hfail.
    destruct (retryWithBackoff_finishes fn random maxRetries baseDelay)
      as (r & w & Hrun & Hdraws & Hwaits & _ & Hpos).
    destruct (Hpos Hmax) as (Hinv & Hle & Hlast).
    destruct (Hfail (List.length (sleeps w)) Hle) as (error & Herr & Hno).
    rewrite Herr in Hlast. destruct Hlast as [-> [Hterm | Hend]]; [congruence |].
    assert (Hn : List.length (sleeps w) = Z.to_nat maxRetries) by lia.
    exists error, w.
    rewrite <- Hn.
    split; [exact Herr |]. split; [exact Hrun |]. split; [exact Hinv |].
    intros e ->. reflexivity.
Qed.

Lemma retryWithBackoff_policy_witness :
  exists wait0 wait1 : Q,
    retryWithBackoff
      (fun k => match k with
                | 0%nat | 1%nat =>
                    Throws (TError (newRedditAPIError "unavailable" (Some 503)
                                      (Some "SERVICE_UNAVAILABLE") None))
                | _ => Returns 7
                end)
      (fun _ => 1 # 2) 3 defaultBaseDelay
    = (Some (Returns 7), mkRetryWorld 3 2 [Num wait0; Num wait1])
    /\ (1000 <= wait0 /\ wait0 <= 2000)%Q
    /\ (2000 <= wait1 /\ wait1 <= 3000)%Q.
Proof.
  assert (Hrandom : forall k : nat, (0 <= (fun _ : nat => 1 # 2) k
                                     /\ (fun _ : nat => 1 # 2) k < 1)%Q).
  { intros k. split; vm_compute; [discriminate | reflexivity]. }
  destruct (retryWithBackoff_policy Z
              (fun k => match k with
                        | 0%nat | 1%nat =>
                            Throws (TError (newRedditAPIError "unavailable" (Some 503)
                                              (Some "SERVICE_UNAVAILABLE") None))
                        | _ => Returns 7
                        end)
              (fun _ => 1 # 2) 1000%Q Hrandom) as (_ & _ & Htwo & _).
  exact (Htwo _ _ 7 eq_refl eq_refl eq_refl eq_refl eq_refl).
Defined.

(** C7 as stated fails at the edge of rounding. [Math.random()] is below 1
    and its product with 1000 is below 1000, yet the sum the engine sleeps
    for can be [baseDelay * 2^attempt + 1000] exactly: with the default base
    delay and [Math.random()] the largest double below 1, [r = 1 - 2^-53]
    (or the one before it, [r' = 1 - 2^-52]), the wait at attempt 1 is 3000
    ms, a jitter of 1000, not below it. And the waits need not increase: a
    first wait with [Math.random() = r] and a second with
    [Math.random() = 0] are both 2000 ms. *)
Lemma rounding_can_make_the_jitter_1000 :
  let r := next_down 1%float in
  let r' := next_down (next_down 1%float) in
  r = 0x1.fffffffffffffp-1%float /\ r' = 0x1.ffffffffffffep-1%float
  /\ (r <? 1)%float = true /\ (r * 1000 <? 1000)%float = true
  /\ delayInDoubles 1000 1 r = 3000%float
  /\ (delayInDoubles 1000 1 r - 1000 * Double.pow2 1)%float = 1000%float
  /\ delayInDoubles 1000 1 r' = 3000%float
  /\ delayInDoubles 1000 0 r = 2000%float
  /\ delayInDoubles 1000 1 0 = 2000%float.
Proof. vm_compute. repeat split. Qed.

End ErrorHandlerProofs.

(** ** Rate limiter *)

Module RateLimiterProofs.

Import RateLimiter.

(** *** Readings of the record of callbacks *)

Lemma pick_app {A B : Type} (f : A -> option B) (l1 l2 : list A) :
  pick f (l1 ++ l2) = pick f l1 ++ pick f l2.
Proof.
  induction l1 as [|x l1 IH]; simpl; [reflexivity |].
  destruct (f x); simpl; rewrite IH; reflexivity.
Qed.

Lemma pick_rejections (f : Effect -> option nat) (q : list nat) (msg : string) :
  (forall id, f (Rejected id msg) = Some id) ->
  pick f (map (fun item => Rejected item msg) q) = q.
Proof.
  intros Hf. induction q as [|x q IH]; simpl; [reflexivity |].
  rewrite Hf, IH. reflexivity.
Qed.

Lemma pick_rejections_none (f : Effect -> option nat) (q : list nat) (msg : string) :
  (forall id, f (Rejected id msg) = None) ->
  pick f (map (fun item => Rejected item msg) q) = [].
Proof.
  intros Hf. induction q as [|x q IH]; simpl; [reflexivity |].
  rewrite Hf, IH. reflexivity.
Qed.

(** *** The while loop of processQueue *)

Lemma drain_spec (q : list nat) :
  forall tok q' tok' eff,
    drain q tok = (q', tok', eff) ->
    q = pick settledId eff ++ q'
    /\ eff = map Resolved (pick settledId eff)
    /\ (tok' == tok - inject_Z (Z.of_nat (List.length eff)))%Q
    /\ (q' <> [] -> ~ (1 <= tok')%Q)
    /\ (eff <> [] -> (1 <= tok)%Q)
    /\ (0 <= tok -> 0 <= tok')%Q.
Proof.
  induction q as [|item rest IH]; intros tok q' tok' eff H; simpl in H.
  - inversion H; subst. simpl. repeat split; try congruence; try tauto.
    unfold inject_Z; simpl. lra.
  - destruct (Qle_bool 1 tok) eqn:Hge.
    + destruct (drain rest (tok - 1)%Q) as [[q1 tok1] eff1] eqn:Hd.
      inversion H; subst; clear H.
      destruct (IH _ _ _ _ Hd) as (Hq & Heff & Htok & Hleft & _ & Hnn).
      apply Qle_bool_iff in Hge.
      cbn [pick settledId List.length map app].
      split; [f_equal; exact Hq |].
      split; [f_equal; exact Heff |].
      split.
      { rewrite Htok, Nat2Z.inj_succ. unfold Z.succ. rewrite inject_Z_plus.
        change (inject_Z 1) with 1%Q. lra. }
      split; [exact Hleft |]. split; [intros _; exact Hge |].
      intros _. apply Hnn. lra.
    + inversion H; subst; clear H. simpl.
      split; [reflexivity |]. split; [reflexivity |].
      split; [unfold inject_Z; simpl; lra |].
      split; [| split; [congruence | tauto]].
      intros _ Hle. apply Qle_bool_iff in Hle. congruence.
Qed.

(** *** What each operation does *)

Lemma scheduleRefill_frame (now : Z) (s : t) :
  tokens (scheduleRefill now s) = tokens s
  /\ maxTokens (scheduleRefill now s) = maxTokens s
  /\ refillRate (scheduleRefill now s) = refillRate s
  /\ lastRefill (scheduleRefill now s) = lastRefill s
  /\ queue (scheduleRefill now s) = queue s
  /\ calls (scheduleRefill now s) = calls s
  /\ history (scheduleRefill now s) = history s.
Proof.
  unfold scheduleRefill. destruct (queue s) eqn:Hq; cbn; rewrite ?Hq; repeat split.
Qed.

Lemma acquire_effect (now : Z) (s : t) :
  let s1 := refillTokens now s in
  let s' := snd (acquire now s) in
  calls s' = S (calls s) /\ maxTokens s' = maxTokens s
  /\ refillRate s' = refillRate s /\ lastRefill s' = now
  /\ ((fst (acquire now s) = Completed /\ (1 <= tokens s1)%Q
       /\ tokens s' = (tokens s1 - 1)%Q /\ queue s' = queue s
       /\ timers s' = timers s
       /\ history s' = history s ++ [Granted (calls s)])
      \/
      (fst (acquire now s) = Pending /\ ~ (1 <= tokens s1)%Q
       /\ tokens s' = tokens s1 /\ queue s' = queue s ++ [calls s]
       /\ (exists tm, timers s' = timers s ++ [tm])
       /\ history s' = history s ++ [Pushed (calls s)])).
Proof.
  cbv zeta. unfold acquire.
  destruct (Qle_bool 1 (tokens (refillTokens now s))) eqn:Hge.
  - apply Qle_bool_iff in Hge. cbn. repeat split. left. repeat split. exact Hge.
  - assert (Hlt : ~ (1 <= tokens (refillTokens now s))%Q).
    { intros H. apply Qle_bool_iff in H. congruence. }
    cbn [fst snd].
    match goal with |- context [scheduleRefill now ?x] =>
      destruct (scheduleRefill_frame now x) as (Ht & Hm & Hr & Hl & Hq & Hc & Hh);
      rewrite Ht, Hm, Hr, Hl, Hq, Hc, Hh
    end.
    cbn. repeat split. right. repeat split; try assumption.
    unfold scheduleRefill; cbn.
    destruct (queue s); cbn; eexists; reflexivity.
Qed.

Lemma onTimeout_effect (now : Z) (s : t) :
  let s1 := refillTokens now s in
  let s' := onTimeout now s in
  calls s' = calls s /\ maxTokens s' = maxTokens s
  /\ refillRate s' = refillRate s /\ lastRefill s' = now
  /\ exists ids,
       queue s = ids ++ queue s'
       /\ history s' = history s ++ map Resolved ids
       /\ (tokens s' == tokens s1 - inject_Z (Z.of_nat (List.length ids)))%Q
       /\ (queue s' <> [] -> ~ (1 <= tokens s')%Q)
       /\ (ids <> [] -> (1 <= tokens s1)%Q)
       /\ (0 <= tokens s1 -> 0 <= tokens s')%Q.
Proof.
  cbv zeta. unfold onTimeout, processQueue.
  destruct (drain (queue (refillTokens now s)) (tokens (refillTokens now s)))
    as [[q' tok'] eff] eqn:Hd.
  destruct (drain_spec _ _ _ _ _ Hd) as (Hq & Heff & Htok & Hleft & Hsome & Hnn).
  match goal with |- context [scheduleRefill now ?x] =>
    destruct (scheduleRefill_frame now x) as (Ht & Hm & Hr & Hl & Hq' & Hc & Hh);
    rewrite Ht, Hm, Hr, Hl, Hq', Hc, Hh
  end.
  cbn. repeat split.
  exists (pick settledId eff).
  cbn in Hq.
  split; [exact Hq |].
  split; [rewrite <- Heff; reflexivity |].
  split.
  { rewrite Htok. rewrite Heff at 1. rewrite length_map. reflexivity. }
  split; [exact Hleft |].
  split; [| exact Hnn].
  intros Hne. apply Hsome. intros ->. apply Hne. reflexivity.
Qed.

(** *** The queue and the record of callbacks *)

Lemma consistent_new (requestsPerMinute : Q) (now : Z) :
  consistent (new requestsPerMinute now).
Proof.
  unfold consistent, pushed, settled; cbn. repeat split; constructor.
Qed.

Lemma consistent_step (s : t) (ev : Event) :
  consistent s -> consistent (step s ev).
Proof.
  unfold consistent, pushed, settled.
  intros (Hfifo & Hcalls & Hdup).
  destruct ev as [now | now | now | now]; cbn [step].
  - destruct (acquire_effect now s)
      as (Hc & _ & _ & _ & [(_ & _ & _ & Hq & _ & Hh) | (_ & _ & _ & Hq & _ & Hh)]);
      rewrite Hc, Hq, Hh, !pick_app; cbn [pick pushedId settledId].
    + rewrite !app_nil_r. repeat split; try assumption.
      eapply Forall_impl; [| exact Hcalls]. cbn; lia.
    + rewrite app_nil_r, Hfifo, app_assoc.
      split; [reflexivity |]. rewrite <- Hfifo. split.
      * apply Forall_app. split.
        -- eapply Forall_impl; [| exact Hcalls]. cbn; lia.
        -- constructor; [lia | constructor].
      * apply NoDup_app; [assumption | repeat constructor; intros [] |].
        intros a Ha [<- | []].
        rewrite Forall_forall in Hcalls. specialize (Hcalls _ Ha). lia.
  - destruct (timers s) as [|tm rest]; [repeat split; assumption |].
    match goal with |- context [onTimeout now ?x] =>
      destruct (onTimeout_effect now x) as (Hc & _ & _ & _ & ids & Hq & Hh & _)
    end.
    cbn [queue history calls refillTokens] in Hc, Hq, Hh.
    rewrite Hc, Hh, !pick_app.
    assert (Hp : pick pushedId (map Resolved ids) = []).
    { clear. induction ids; cbn; auto. }
    assert (Hs : pick settledId (map Resolved ids) = ids).
    { clear. induction ids; cbn; congruence. }
    rewrite Hp, Hs, app_nil_r, <- app_assoc, <- Hq.
    repeat split; assumption.
  - cbn. repeat split; assumption.
  - cbn [reset queue history calls]. rewrite !pick_app.
    rewrite (pick_rejections settledId) by reflexivity.
    rewrite (pick_rejections_none pushedId) by reflexivity.
    rewrite !app_nil_r. repeat split; assumption.
Qed.

Lemma run_snoc (s : t) (evs : list Event) (ev : Event) :
  run s (evs ++ [ev]) = step (run s evs) ev.
Proof. unfold run. rewrite fold_left_app. reflexivity. Qed.

Lemma consistent_run (evs : list Event) :
  forall s, consistent s -> consistent (run s evs).
Proof.
  induction evs as [|ev evs IH]; intros s Hs; [exact Hs |].
  change (run s (ev :: evs)) with (run (step s ev) evs).
  apply IH. apply consistent_step. exact Hs.
Qed.

(** *** Bounds on the token count *)



Lemma step_constants (s : t) (ev : Event) :
  maxTokens (step s ev) = maxTokens s /\ refillRate (step s ev) = refillRate s.
Proof.
  destruct ev as [now | now | now | now]; cbn [step].
  - destruct (acquire_effect now s) as (_ & Hm & Hr & _). auto.
  - destruct (timers s) as [|tm rest]; [auto |].
    match goal with |- context [onTimeout now ?x] =>
      destruct (onTimeout_effect now x) as (_ & Hm & Hr & _)
    end. auto.
  - cbn. auto.
  - cbn. auto.
Qed.

Lemma run_constants (evs : list Event) :
  forall s, maxTokens (run s evs) = maxTokens s /\ refillRate (run s evs) = refillRate s.
Proof.
  induction evs as [|ev evs IH]; intros s; [auto |].
  change (run s (ev :: evs)) with (run (step s ev) evs).
  destruct (IH (step s ev)) as [Hm Hr].
  destruct (step_constants s ev) as [Hm' Hr'].
  split; congruence.
Qed.









(** *** A fresh limiter *)

Lemma refillTokens_same_instant (s : t) :
  (tokens s <= maxTokens s)%Q ->
  (tokens (refillTokens (lastRefill s) s) == tokens s)%Q.
Proof.
  intros H. cbn. rewrite Z.sub_diag.
  destruct (Q.min_spec (maxTokens s) (tokens s + inject_Z 0 * refillRate s)%Q)
    as [[Hlt ->] | [Hle ->]].
  - assert (inject_Z 0 * refillRate s == 0)%Q by (unfold inject_Z; ring). lra.
  - unfold inject_Z; ring.
Qed.

Section Fresh.

Variable capacity : positive.
Variable t0 : Z.

Lemma acquire_afterGrants (k : nat) (s : t) :
  afterGrants capacity t0 k s -> (k < Pos.to_nat capacity)%nat ->
  fst (acquire t0 s) = Completed /\ afterGrants capacity t0 (S k) (snd (acquire t0 s)).
Proof.
  intros (Htok & Hmax & Hlast & Hq & Hc & Htm & Hh) Hk.
  assert (Hk' : (inject_Z (Z.of_nat k) + 1 <= inject_Z (Zpos capacity))%Q).
  { change 1%Q with (inject_Z 1). rewrite <- inject_Z_plus, <- Zle_Qle. lia. }
  assert (Hk0 : (0 <= inject_Z (Z.of_nat k))%Q).
  { change 0%Q with (inject_Z 0). rewrite <- Zle_Qle. lia. }
  assert (Hsame : (tokens (refillTokens t0 s) == tokens s)%Q).
  { rewrite <- Hlast. apply refillTokens_same_instant. rewrite Htok, Hmax. lra. }
  destruct (acquire_effect t0 s)
    as (Hc' & Hm' & _ & Hl' & [(Hr & _ & Ht' & Hq' & Htm' & Hh') | (_ & Hno & _)]).
  - split; [exact Hr |].
    unfold afterGrants.
    rewrite Ht', Hm', Hl', Hq', Hc', Htm', Hh', Hsame, Htok, Hq, Hc, Htm, Hh.
    rewrite Nat2Z.inj_succ. unfold Z.succ. rewrite inject_Z_plus.
    change (inject_Z 1) with 1%Q.
    repeat split; try assumption; try lra.
    rewrite seq_S, map_app. reflexivity.
  - exfalso. apply Hno. rewrite Hsame, Htok. lra.
Qed.

Lemma acquireMany_afterGrants (n : nat) :
  forall (k : nat) (s : t),
    afterGrants capacity t0 k s -> (k + n <= Pos.to_nat capacity)%nat ->
    fst (acquireMany n t0 s) = repeat Completed n
    /\ afterGrants capacity t0 (k + n) (snd (acquireMany n t0 s)).
Proof.
  induction n as [|n IH]; intros k s Hs Hk.
  - cbn. rewrite Nat.add_0_r. auto.
  - cbn [acquireMany].
    destruct (acquire_afterGrants k s Hs ltac:(lia)) as [Hr Hs'].
    destruct (acquire t0 s) as [r s1]. cbn [fst snd] in Hr, Hs'.
    destruct (IH (S k) s1 Hs' ltac:(lia)) as [Hrs Hfin].
    destruct (acquireMany n t0 s1) as [rs s2]. cbn [fst snd] in *.
    rewrite Hr, Hrs. split; [reflexivity |].
    replace (k + S n)%nat with (S k + n)%nat by lia. exact Hfin.
Qed.

Lemma afterGrants_new : afterGrants capacity t0 O (new (inject_Z (Zpos capacity)) t0).
Proof.
  unfold afterGrants; cbn. repeat split. unfold inject_Z; ring.
Qed.

End Fresh.

(** C2. On a limiter just constructed with a positive whole capacity, with
    the clock standing still, each of the first [N] calls of [acquire()],
    for every [N] up to the capacity, completes at once and leaves the queue
    empty; the call after the capacity-th does not complete and is appended
    to the queue. *)
Theorem fresh_limiter_admits_capacity (capacity : positive) (t0 : Z) :
  let s0 := new (inject_Z (Zpos capacity)) t0 in
  (forall N : nat, (N <= Pos.to_nat capacity)%nat ->
     fst (acquireMany N t0 s0) = repeat Completed N
     /\ queue (snd (acquireMany N t0 s0)) = []
     /\ history (snd (acquireMany N t0 s0)) = map Granted (seq 0 N)) /\
  (let sC := snd (acquireMany (Pos.to_nat capacity) t0 s0) in
   fst (acquire t0 sC) = Pending
   /\ queue (snd (acquire t0 sC)) = [Pos.to_nat capacity]
   /\ history (snd (acquire t0 sC)) = history sC ++ [Pushed (Pos.to_nat capacity)]).
Proof.
  cbv zeta. split.
  - intros N HN.
    destruct (acquireMany_afterGrants capacity t0 N O _ (afterGrants_new capacity t0) HN)
      as (Hr & _ & _ & _ & Hq & _ & _ & Hh).
    auto.
  - destruct (acquireMany_afterGrants capacity t0 (Pos.to_nat capacity) O _
                (afterGrants_new capacity t0) (Nat.le_refl _))
      as (_ & Htok & Hmax & Hlast & Hq & Hc & _ & _).
    cbn [Nat.add] in *.
    set (sC := snd (acquireMany (Pos.to_nat capacity) t0
                      (new (inject_Z (Zpos capacity)) t0))) in *.
    assert (Hsame : (tokens (refillTokens t0 sC) == tokens sC)%Q).
    { rewrite <- Hlast. apply refillTokens_same_instant. rewrite Htok, Hmax.
      assert (0 <= inject_Z (Z.of_nat (Pos.to_nat capacity)))%Q.
      { change 0%Q with (inject_Z 0). rewrite <- Zle_Qle. lia. }
      lra. }
    destruct (acquire_effect t0 sC)
      as (_ & _ & _ & _ & [(_ & Hge & _) | (Hr & _ & _ & Hq' & _ & Hh')]).
    + exfalso. rewrite Hsame, Htok in Hge.
      rewrite positive_nat_Z in Hge. lra.
    + rewrite Hr, Hq', Hh', Hq, Hc. auto.
Qed.

Lemma fresh_limiter_admits_capacity_witness :
  fst (acquireMany 2 0 (new 3 0)) = [Completed; Completed]
  /\ fst (acquire 0 (snd (acquireMany 3 0 (new 3 0)))) = Pending.
Proof.
  destruct (fresh_limiter_admits_capacity 3 0) as [Hfirst Hnext].
  split.
  - exact (proj1 (Hfirst 2%nat ltac:(vm_compute; lia))).
  - exact (proj1 Hnext).
Defined.

(** *** Order of service *)

Lemma NoDup_app_disjoint {A : Type} (l1 l2 : list A) :
  NoDup (l1 ++ l2) -> forall a, In a l1 -> In a l2 -> False.
Proof.
  induction l1 as [|x l1 IH]; intros Hnd a H1 H2; [contradiction |].
  cbn in Hnd. inversion Hnd as [|? ? Hx Hrest]; subst.
  destruct H1 as [-> | H1].
  - apply Hx. apply in_or_app. right. exact H2.
  - exact (IH Hrest a H1 H2).
Qed.

Lemma before_in_prefix {A : Type} (done rest : list A) (a b : A) :
  NoDup (done ++ rest) ->
  before (done ++ rest) a b -> In b done -> before done a b.
Proof.
  intros Hnd (l1 & l2 & l3 & Heq) Hb.
  assert (Heq' : done ++ rest = (l1 ++ a :: l2) ++ b :: l3).
  { rewrite Heq, <- app_assoc. reflexivity. }
  apply app_eq_app in Heq'.
  destruct Heq' as (l & [[Hd Hr] | [Hd Hr]]).
  - destruct l as [|x l].
    + exfalso. rewrite app_nil_r in Hd. cbn in Hr.
      apply (NoDup_app_disjoint done rest Hnd b Hb).
      rewrite <- Hr. left. reflexivity.
    + cbn in Hr. inversion Hr; subst x.
      exists l1, l2, l. rewrite Hd, <- app_assoc. reflexivity.
  - exfalso.
    apply (NoDup_app_disjoint done rest Hnd b Hb).
    rewrite Hr. apply in_or_app. right. left. reflexivity.
Qed.

Lemma head_is_served_first (now : Z) (s : t) (a : nat) (rest : list nat) :
  queue s = a :: rest -> timers s <> [] ->
  (1 <= tokens (refillTokens now s))%Q ->
  exists later, history (step s (ETimeout now)) = history s ++ Resolved a :: later.
Proof.
  intros Hq Htm Hge. cbn [step].
  destruct (timers s) as [|tm more]; [congruence |].
  unfold onTimeout, processQueue.
  cbn [queue tokens refillTokens lastRefill maxTokens refillRate] in *.
  rewrite Hq. cbn [drain].
  apply Qle_bool_iff in Hge. rewrite Hge.
  match goal with |- context [drain rest ?x] =>
    destruct (drain rest x) as [[q' tok'] eff]
  end.
  match goal with |- context [scheduleRefill now ?x] =>
    destruct (scheduleRefill_frame now x) as (_ & _ & _ & _ & _ & _ & Hh);
    rewrite Hh
  end.
  cbn. eexists. reflexivity.
Qed.

(** C4 (amended). Along every sequence of operations and timer callbacks,
    the waiters settled so far followed by those still queued are the
    waiters in the order in which they were queued; so whenever a waiter has
    been settled, every waiter queued before it was settled before it, over
    any number of refills. When a timer callback finds a token, the head of
    the queue is the first waiter it resolves. A call of [acquire()] that
    finds a token is let through at once and leaves the queue as it is,
    also when waiters are queued. *)
Theorem queued_waiters_are_served_in_arrival_order
  (requestsPerMinute : Q) (t0 : Z) (evs : list Event) :
  let s := run (new requestsPerMinute t0) evs in
  pushed s = settled s ++ queue s /\
  NoDup (pushed s) /\
  (forall a b, before (pushed s) a b -> In b (settled s) -> before (settled s) a b) /\
  (forall now a rest,
     queue s = a :: rest -> timers s <> [] ->
     (1 <= tokens (refillTokens now s))%Q ->
     exists later, history (step s (ETimeout now)) = history s ++ Resolved a :: later) /\
  (forall now,
     (1 <= tokens (refillTokens now s))%Q ->
     fst (acquire now s) = Completed
     /\ queue (snd (acquire now s)) = queue s
     /\ history (snd (acquire now s)) = history s ++ [Granted (calls s)]).
Proof.
  intros s.
  destruct (consistent_run evs _ (consistent_new requestsPerMinute t0))
    as (Hfifo & _ & Hdup).
  fold s in Hfifo, Hdup.
  split; [exact Hfifo |]. split; [exact Hdup |]. split; [| split].
  - intros a b Hab Hb. rewrite Hfifo in Hab, Hdup.
    exact (before_in_prefix _ _ a b Hdup Hab Hb).
  - intros now a rest. apply head_is_served_first.
  - intros now Hge.
    destruct (acquire_effect now s)
      as (_ & _ & _ & _ & [(Hdone & _ & _ & Hq & _ & Hh) | (_ & Hno & _)]);
      [| contradiction].
    split; [exact Hdone |]. split; [exact Hq | exact Hh].
Qed.

Lemma queued_waiters_are_served_in_arrival_order_witness :
  let s := run (new 2 0) [EAcquire 0; EAcquire 0; EAcquire 0; EAcquire 0;
                          ETimeout 30000; ETimeout 60000] in
  before (settled s) 2%nat 3%nat.
Proof.
  destruct (queued_waiters_are_served_in_arrival_order 2 0
              [EAcquire 0; EAcquire 0; EAcquire 0; EAcquire 0;
               ETimeout 30000; ETimeout 60000]) as (_ & _ & Horder & _).
  apply Horder.
  - exists [], [], []. vm_compute. reflexivity.
  - vm_compute. right. left. reflexivity.
Defined.

(** C4 as stated fails: a token that becomes available is not always given
    to the earliest-queued waiter. With a capacity of one, the second caller
    is queued; a third call, made a minute later when the refill has
    restored the token and before any timer callback has run, takes it,
    and the second caller is still queued. The engine's arithmetic gives
    the same run. *)
Lemma a_newcomer_is_served_before_the_waiter :
  (let s := run (new 1 0) [EAcquire 0; EAcquire 0; EAcquire 60000] in
   history s = [Granted 0%nat; Pushed 1%nat; Granted 2%nat] /\ queue s = [1%nat])
  /\
  (let s := RateLimiterDouble.run (RateLimiterDouble.new 1 0)
              [EAcquire 0; EAcquire 0; EAcquire 60000] in
   RateLimiterDouble.history s = [Granted 0%nat; Pushed 1%nat; Granted 2%nat]
   /\ RateLimiterDouble.queue s = [1%nat]).
Proof. vm_compute. repeat split. Qed.

(** *** Rejections *)

Lemma in_map_Resolved (e : Effect) (ids : list nat) :
  In e (map Resolved ids) -> exists id, e = Resolved id.
Proof.
  intros H. apply in_map_iff in H. destruct H as (id & <- & _). eauto.
Qed.

Lemma step_rejections (s : t) (ev : Event) (id : nat) (msg : string) :
  In (Rejected id msg) (history (step s ev)) ->
  In (Rejected id msg) (history s)
  \/ (msg = resetMessage /\ In id (queue s) /\ exists now, ev = EReset now).
Proof.
  destruct ev as [now | now | now | now]; cbn [step].
  - destruct (acquire_effect now s)
      as (_ & _ & _ & _ & [(_ & _ & _ & _ & _ & Hh) | (_ & _ & _ & _ & _ & Hh)]);
      rewrite Hh; intros H; apply in_app_or in H;
      destruct H as [H | [H | []]]; try discriminate; auto.
  - destruct (timers s) as [|tm rest]; [auto |].
    match goal with |- context [onTimeout now ?x] =>
      destruct (onTimeout_effect now x) as (_ & _ & _ & _ & ids & _ & Hh & _)
    end.
    cbn [history refillTokens] in Hh. rewrite Hh.
    intros H. apply in_app_or in H. destruct H as [H | H]; [auto |].
    apply in_map_Resolved in H. destruct H as (x & H). discriminate.
  - cbn. auto.
  - cbn [reset history]. intros H. apply in_app_or in H.
    destruct H as [H | H]; [auto |].
    apply in_map_iff in H. destruct H as (x & Hx & Hin).
    inversion Hx; subst. right. split; [reflexivity |]. split; [exact Hin |].
    eexists; reflexivity.
Qed.

Lemma run_rejections (evs : list Event) (s0 : t) (id : nat) (msg : string) :
  In (Rejected id msg) (history (run s0 evs)) ->
  In (Rejected id msg) (history s0)
  \/ (msg = resetMessage /\ exists now, In (EReset now) evs).
Proof.
  induction evs as [|ev evs IH] using rev_ind; [auto |].
  rewrite run_snoc. intros H.
  apply step_rejections in H.
  destruct H as [H | (Hm & _ & now & ->)].
  - destruct (IH H) as [H0 | (Hm & now & Hin)]; [auto |].
    right. split; [exact Hm |]. exists now. apply in_or_app. auto.
  - right. split; [exact Hm |]. exists now. apply in_or_app. right. left. reflexivity.
Qed.

Lemma settled_split (h : list Effect) (id : nat) :
  In id (pick settledId h) ->
  In id (pick resolvedId h) \/ In id (pick rejectedId h).
Proof.
  induction h as [|e h IH]; cbn; [tauto |].
  destruct e; cbn; intros H; try (destruct H as [-> | H]); try tauto;
    destruct (IH H); tauto.
Qed.

Lemma step_accounts (s : t) (ev : Event) :
  (forall id, (id < calls s)%nat -> In (Granted id) (history s) \/ In id (pushed s)) ->
  forall id, (id < calls (step s ev))%nat ->
             In (Granted id) (history (step s ev)) \/ In id (pushed (step s ev)).
Proof.
  intros Hacc id. unfold pushed in *.
  destruct ev as [now | now | now | now]; cbn [step].
  - destruct (acquire_effect now s)
      as (Hc & _ & _ & _ & [(_ & _ & _ & _ & _ & Hh) | (_ & _ & _ & _ & _ & Hh)]);
      rewrite Hc, Hh, pick_app; cbn [pick pushedId]; intros Hid;
      (destruct (Nat.eq_dec id (calls s)) as [-> | Hne];
       [| destruct (Hacc id ltac:(lia)); [left | right]; apply in_or_app; auto]).
    + left. apply in_or_app. right. left. reflexivity.
    + right. apply in_or_app. right. left. reflexivity.
  - destruct (timers s) as [|tm rest]; [apply Hacc |].
    match goal with |- context [onTimeout now ?x] =>
      destruct (onTimeout_effect now x) as (Hc & _ & _ & _ & ids & _ & Hh & _)
    end.
    cbn [history calls refillTokens] in Hc, Hh. rewrite Hc, Hh, pick_app.
    intros Hid. destruct (Hacc id Hid); [left | right]; apply in_or_app; auto.
  - cbn. apply Hacc.
  - cbn [reset history calls]. rewrite pick_app.
    intros Hid. destruct (Hacc id Hid); [left | right]; apply in_or_app; auto.
Qed.

Lemma run_accounts (evs : list Event) (s0 : t) :
  (forall id, (id < calls s0)%nat -> In (Granted id) (history s0) \/ In id (pushed s0)) ->
  forall id, (id < calls (run s0 evs))%nat ->
             In (Granted id) (history (run s0 evs)) \/ In id (pushed (run s0 evs)).
Proof.
  induction evs as [|ev evs IH] using rev_ind; [auto |].
  intros H0. rewrite run_snoc. apply step_accounts. apply IH. exact H0.
Qed.

(** As long as a waiter is queued, a timer callback is pending. *)
Lemma scheduleRefill_awake (now : Z) (s : t) :
  queue (scheduleRefill now s) <> [] -> timers (scheduleRefill now s) <> [].
Proof.
  unfold scheduleRefill. destruct (queue s) eqn:Hq; cbn; [congruence |].
  intros _ H. apply app_eq_nil in H. destruct H as [_ H]. discriminate.
Qed.

Lemma step_awake (s : t) (ev : Event) :
  (queue s <> [] -> timers s <> []) ->
  queue (step s ev) <> [] -> timers (step s ev) <> [].
Proof.
  intros Hs.
  destruct ev as [now | now | now | now]; cbn [step].
  - destruct (acquire_effect now s)
      as (_ & _ & _ & _ & [(_ & _ & _ & Hq & Htm & _) | (_ & _ & _ & _ & (tm & Htm) & _)]);
      rewrite Htm.
    + rewrite Hq. exact Hs.
    + intros _ H. apply app_eq_nil in H. destruct H as [_ H]. discriminate.
  - destruct (timers s) as [|tm rest] eqn:Htm; [rewrite Htm; exact Hs |].
    unfold onTimeout, processQueue.
    match goal with |- context [drain ?q ?x] => destruct (drain q x) as [[q' tok'] eff] end.
    apply scheduleRefill_awake.
  - cbn. exact Hs.
  - cbn. congruence.
Qed.

Lemma run_awake (evs : list Event) :
  forall s, (queue s <> [] -> timers s <> []) ->
            queue (run s evs) <> [] -> timers (run s evs) <> [].
Proof.
  induction evs as [|ev evs IH]; intros s Hs; [exact Hs |].
  change (run s (ev :: evs)) with (run (step s ev) evs).
  apply IH. apply step_awake. exact Hs.
Qed.

(** C5. [reset()] sets the token count to the capacity, empties the queue
    and rejects each waiter that was queued, in order, with the error
    'Rate limiter reset'. Along every sequence of operations and timer
    callbacks a rejection carries that message and comes from a [reset()];
    every call of [acquire()] was granted at once or queued, and every
    queued waiter is still queued or was resolved or was rejected, never
    both queued and settled; while a waiter is queued a timer callback is
    pending. *)
Theorem reset_rejects_every_waiter
  (requestsPerMinute : Q) (t0 : Z) (evs : list Event) (now : Z) :
  let s := run (new requestsPerMinute t0) evs in
  (tokens (reset now s) = requestsPerMinute
   /\ maxTokens (reset now s) = requestsPerMinute
   /\ queue (reset now s) = []
   /\ history (reset now s)
      = history s ++ map (fun id => Rejected id "Rate limiter reset") (queue s)) /\
  (forall id msg,
     In (Rejected id msg) (history s) ->
     msg = "Rate limiter reset" /\ exists t, In (EReset t) evs) /\
  (forall id, (id < calls s)%nat -> In (Granted id) (history s) \/ In id (pushed s)) /\
  (forall id, In id (pushed s) ->
     In id (queue s) \/ In id (resolved s) \/ In id (rejected s)) /\
  (forall id, In id (queue s) -> ~ In id (settled s)) /\
  (queue s <> [] -> timers s <> []).
Proof.
  intros s.
  destruct (run_constants evs (new requestsPerMinute t0)) as [Hm _].
  cbn [maxTokens new] in Hm. fold s in Hm.
  destruct (consistent_run evs _ (consistent_new requestsPerMinute t0))
    as (Hfifo & _ & Hdup).
  fold s in Hfifo, Hdup.
  split; [| split; [| split; [| split; [| split]]]].
  - cbn [reset tokens maxTokens queue history]. rewrite Hm. repeat split.
  - intros id msg H. apply run_rejections in H.
    destruct H as [H | H]; [destruct H | exact H].
  - apply run_accounts. cbn. intros id H. inversion H.
  - intros id H. rewrite Hfifo in H. apply in_app_or in H.
    destruct H as [H | H]; [| auto].
    right. apply settled_split. exact H.
  - intros id Hq Hs. rewrite Hfifo in Hdup.
    exact (NoDup_app_disjoint _ _ Hdup id Hs Hq).
  - apply run_awake. cbn. congruence.
Qed.

Lemma reset_rejects_every_waiter_witness :
  let s := run (new 1 0) [EAcquire 0; EAcquire 0; EAcquire 1; EReset 2] in
  In 1%nat (queue s) \/ In 1%nat (resolved s) \/ In 1%nat (rejected s).
Proof.
  destruct (reset_rejects_every_waiter 1 0
              [EAcquire 0; EAcquire 0; EAcquire 1; EReset 2] 2)
    as (_ & _ & _ & Hkept & _ & _).
  apply Hkept. vm_compute. left. reflexivity.
Defined.

End RateLimiterProofs.

(** ** OAuth2 token manager *)

Module RedditAuthProofs.

Import ErrorHandler.
Import RedditAuth.

Lemma truthy_nonempty (token : string) :
  token <> "" -> truthy (Some token) = true.
Proof. destruct token; [congruence | reflexivity]. Qed.

Section AuthProofs.

Variable config : RedditConfig.
Variable server : Server.

Lemma post_effect (req : Request) (s : t) (w : World) :
  post server req (s, w)
  = match snd (server (List.length (sent w)) req) with
    | Fulfilled d => (Returns d, (s, afterRequest server w req))
    | Failed error => (Throws error, (s, afterRequest server w req))
    end.
Proof.
  unfold post, afterRequest. destruct (server (List.length (sent w)) req) as [elapsed reply].
  destruct reply; reflexivity.
Qed.

Lemma authenticateWithPassword_effect (s : t) (w : World) :
  truthy (username config) = true -> truthy (password config) = true ->
  authenticateWithPassword config server (s, w)
  = match snd (server (List.length (sent w)) (passwordRequest config)) with
    | Fulfilled d =>
        (Returns (access_token d),
         (stored s d (now (afterRequest server w (passwordRequest config))),
          afterRequest server w (passwordRequest config)))
    | Failed error =>
        (Throws (TError (parseRedditError error)), (s, afterRequest server w (passwordRequest config)))
    end.
Proof.
  intros Hu Hp. unfold authenticateWithPassword. rewrite Hu, Hp. cbn [negb orb].
  unfold tryCatch, bind. rewrite post_effect.
  destruct (snd (server (List.length (sent w)) (passwordRequest config))); reflexivity.
Qed.

Lemma authenticateWithRefreshToken_effect (s : t) (w : World) :
  truthy (refreshToken s) = true ->
  let req := refreshRequest (valueOf (refreshToken s)) in
  authenticateWithRefreshToken server (s, w)
  = match snd (server (List.length (sent w)) req) with
    | Fulfilled d =>
        (Returns (access_token d),
         (stored s d (now (afterRequest server w req)), afterRequest server w req))
    | Failed error =>
        (Throws (TError (parseRedditError error)), (s, afterRequest server w req))
    end.
Proof.
  intros Hr. cbv zeta. unfold authenticateWithRefreshToken. rewrite Hr. cbn [negb].
  unfold tryCatch, bind. rewrite post_effect.
  destruct (snd (server (List.length (sent w)) _)); reflexivity.
Qed.

(** C1. [getAccessToken()]: when a non-empty access token is cached and the
    clock reads more than 60 seconds before its expiry, that token is
    returned and nothing is sent; otherwise, when a refresh token is stored,
    a refresh-token request is sent first: if it succeeds its token is
    stored and returned, and if it fails for whatever reason the failure is
    logged, not thrown, and the outcome is that of password authentication;
    without a refresh token the outcome is that of password authentication
    at once. With a username and a password and no refresh token, a first
    call sends exactly one password request and returns its token, and a
    call made before the margin of expiry then sends nothing. *)
Theorem getAccessToken_policy (s : t) (w : World) :
  let valid := truthy (accessToken s) && (now w <? tokenExpiry s - 60000) in
  (forall token,
      accessToken s = Some token -> token <> "" ->
      now w < tokenExpiry s - 60000 ->
      getAccessToken config server (s, w) = (Returns token, (s, w)))
  /\
  (valid = false -> truthy (refreshToken s) = true ->
   let req := refreshRequest (valueOf (refreshToken s)) in
   match snd (server (List.length (sent w)) req) with
   | Fulfilled d =>
       getAccessToken config server (s, w)
       = (Returns (access_token d), (stored s d (now (afterRequest server w req)), afterRequest server w req))
   | Failed error =>
       getAccessToken config server (s, w)
       = authenticateWithPassword config server
           (s, mkWorld (now (afterRequest server w req)) (sent w ++ [req])
                 (console w ++ [TError (parseRedditError error)]))
   end)
  /\
  (valid = false -> truthy (refreshToken s) = false ->
   getAccessToken config server (s, w) = authenticateWithPassword config server (s, w))
  /\
  (valid = false -> truthy (refreshToken s) = false ->
   truthy (username config) = true -> truthy (password config) = true ->
   forall d,
     snd (server (List.length (sent w)) (passwordRequest config)) = Fulfilled d ->
     let s1 := stored s d (now (afterRequest server w (passwordRequest config))) in
     let w1 := afterRequest server w (passwordRequest config) in
     getAccessToken config server (s, w) = (Returns (access_token d), (s1, w1))
     /\ sent w1 = sent w ++ [passwordRequest config]
     /\ (access_token d <> "" ->
         forall w2, now w2 < tokenExpiry s1 - 60000 ->
                    getAccessToken config server (s1, w2)
                    = (Returns (access_token d), (s1, w2)))).
Proof.
  cbv zeta.
  assert (Hcached : forall (s' : t) (w' : World) token,
             accessToken s' = Some token -> token <> "" ->
             now w' < tokenExpiry s' - 60000 ->
             getAccessToken config server (s', w') = (Returns token, (s', w'))).
  { intros s' w' token Htok Hne Hnow. unfold getAccessToken.
    rewrite Htok, (truthy_nonempty _ Hne).
    apply Z.ltb_lt in Hnow. rewrite Hnow. reflexivity. }
  assert (Hdirect : truthy (accessToken s) && (now w <? tokenExpiry s - 60000) = false ->
                    truthy (refreshToken s) = false ->
                    getAccessToken config server (s, w)
                    = authenticateWithPassword config server (s, w)).
  { intros Hv Hr. unfold getAccessToken. rewrite Hv, Hr. reflexivity. }
  split; [apply Hcached |]. split; [| split; [exact Hdirect |]].
  - intros Hv Hr.
    pose proof (authenticateWithRefreshToken_effect s w Hr) as Heff. cbv zeta in Heff.
    destruct (snd (server (List.length (sent w))
                     (refreshRequest (valueOf (refreshToken s)))));
      unfold getAccessToken; rewrite Hv, Hr; unfold tryCatch at 1;
      rewrite Heff; reflexivity.
  - intros Hv Hr Hu Hp d Hd.
    rewrite (Hdirect Hv Hr), (authenticateWithPassword_effect s w Hu Hp), Hd.
    split; [reflexivity |]. split; [reflexivity |].
    intros Hne w2 Hnow. apply Hcached; [reflexivity | exact Hne | exact Hnow].
Qed.

(** C8 (amended). [revokeToken()] returns without sending anything and
    without changing anything when no access token is cached (the field is
    null or empty). Otherwise it sends one revocation request for the
    cached token; when the request succeeds the access token and the expiry
    are cleared; when it fails the classified error is thrown and the
    access token, the expiry and the refresh token are left as they were. *)
Theorem revokeToken_clears_on_success (s : t) (w : World) :
  (truthy (accessToken s) = false ->
   revokeToken server (s, w) = (Returns tt, (s, w)))
  /\
  (truthy (accessToken s) = true ->
   let req := revokeRequest (valueOf (accessToken s)) in
   match snd (server (List.length (sent w)) req) with
   | Fulfilled _ =>
       revokeToken server (s, w)
       = (Returns tt, (mk None (refreshToken s) 0, afterRequest server w req))
   | Failed error =>
       revokeToken server (s, w)
       = (Throws (TError (parseRedditError error)), (s, afterRequest server w req))
   end).
Proof.
  split; intros Ht; cbv zeta; unfold revokeToken; rewrite Ht; cbn [negb].
  - reflexivity.
  - unfold tryCatch, bind. rewrite post_effect.
    destruct (snd (server (List.length (sent w)) _)); reflexivity.
Qed.

(** C10. [authenticateWithPassword()] with the username or the password
    absent (or empty), and [authenticateWithRefreshToken()] with no refresh
    token stored, throw an [AuthenticationError]; nothing is sent, and the
    access token, the expiry and the refresh token are as before. *)
Theorem missing_credentials_fail_atomically (s : t) (w : World) :
  (truthy (username config) = false \/ truthy (password config) = false ->
   authenticateWithPassword config server (s, w)
   = (Throws (TError (newAuthenticationError
                        "Username and password are required for script authentication")),
      (s, w)))
  /\
  (truthy (refreshToken s) = false ->
   authenticateWithRefreshToken server (s, w)
   = (Throws (TError (newAuthenticationError "No refresh token available")), (s, w)))
  /\
  (forall msg, cls (newAuthenticationError msg) = AuthenticationErrorC
               /\ kindOf (newAuthenticationError msg) = Authentication).
Proof.
  split; [| split].
  - intros H. unfold authenticateWithPassword.
    destruct H as [H | H]; rewrite H; rewrite ?orb_true_r; reflexivity.
  - intros H. unfold authenticateWithRefreshToken. rewrite H. reflexivity.
  - intros msg. split; reflexivity.
Qed.

End AuthProofs.

(** C9. [isAuthenticated()] returns true exactly when the access token is
    not null and the clock reads strictly less than the stored expiry, with
    no margin subtracted; it changes neither the instance nor its
    environment. *)
Theorem isAuthenticated_is_a_pure_predicate (s : t) (w : World) :
  exists b : bool,
    isAuthenticated (s, w) = (Returns b, (s, w))
    /\ (b = true <-> accessToken s <> None /\ now w < tokenExpiry s).
Proof.
  unfold isAuthenticated. eexists. split; [reflexivity |].
  rewrite andb_true_iff, Z.ltb_lt.
  destruct (accessToken s); split; intros [H1 H2]; split;
    congruence || assumption || reflexivity.
Qed.

Lemma getAccessToken_policy_witness :
  let config := mkConfig "id" "secret" "agent/1.0" (Some "user") (Some "pass")
                  (Some "refresh-1") 60 3 in
  let unauthorized := TAxios (Some (mkResponse 401 None None))
                        "Request failed with status code 401" in
  let server := fun (k : nat) (_ : Request) =>
                  match k with
                  | O => (120, Failed unauthorized)
                  | _ => (80, Fulfilled (mkAuthResponse "password-token" "bearer" 3600 "*" None))
                  end in
  getAccessToken config server (new config, mkWorld 1000 [] [])
  = (Returns "password-token",
     (mk (Some "password-token") (Some "refresh-1") 3601200,
      mkWorld 1200 [refreshRequest "refresh-1"; passwordRequest config]
        [TError (parseRedditError unauthorized)])).
Proof.
  intros config unauthorized server.
  pose proof (proj1 (proj2 (getAccessToken_policy config server (new config)
                              (mkWorld 1000 [] []))) eq_refl eq_refl) as H.
  etransitivity; [exact H | vm_compute; reflexivity].
Defined.

(** C8 as stated fails: a revocation request that fails leaves the cached
    access token and its expiry in place. *)
Lemma revokeToken_keeps_token_when_revocation_fails :
  let unavailable := TAxios (Some (mkResponse 503 None None))
                       "Request failed with status code 503" in
  let server := fun (_ : nat) (_ : Request) => (40, Failed unavailable) in
  let s := mk (Some "token-1") None 3600000 in
  let w := mkWorld 1000 [] [] in
  revokeToken server (s, w)
  = (Throws (TError (parseRedditError unavailable)),
     (s, mkWorld 1040 [revokeRequest "token-1"] []))
  /\ accessToken (fst (snd (revokeToken server (s, w)))) <> None
  /\ tokenExpiry (fst (snd (revokeToken server (s, w)))) <> 0.
Proof.
  cbv zeta. split; [vm_compute; reflexivity |].
  split; vm_compute; discriminate.
Qed.

Lemma revokeToken_clears_on_success_witness :
  let server := fun (_ : nat) (_ : Request) =>
                  (40, Fulfilled (mkAuthResponse "" "" 0 "" None)) in
  revokeToken server (mk (Some "token-1") (Some "refresh-1") 3600000, mkWorld 1000 [] [])
  = (Returns tt,
     (mk None (Some "refresh-1") 0, mkWorld 1040 [revokeRequest "token-1"] [])).
Proof.
  intros server.
  exact (proj2 (revokeToken_clears_on_success server
                  (mk (Some "token-1") (Some "refresh-1") 3600000)
                  (mkWorld 1000 [] [])) eq_refl).
Defined.

Lemma missing_credentials_fail_atomically_witness :
  let config := mkConfig "id" "secret" "agent/1.0" (Some "user") None None 60 3 in
  let server := fun (_ : nat) (_ : Request) =>
                  (40, Fulfilled (mkAuthResponse "token-1" "bearer" 3600 "*" None)) in
  authenticateWithPassword config server (new config, mkWorld 1000 [] [])
  = (Throws (TError (newAuthenticationError
                       "Username and password are required for script authentication")),
     (new config, mkWorld 1000 [] [])).
Proof.
  intros config server.
  exact (proj1 (missing_credentials_fail_atomically config server (new config)
                  (mkWorld 1000 [] [])) (or_intror eq_refl)).
Defined.

End RedditAuthProofs.

(** ** More on src/utils/error-handler.ts *)

Module ErrorHandlerFacts.

Import ErrorHandler.

(** *** The classifier on every thrown value *)

Lemma orElse_nonempty (v : option string) (d : string) :
  d <> "" -> orElse v d <> "".
Proof.
  intros Hd. destruct v as [[|c r]|]; cbn; try assumption; discriminate.
Qed.

Ltac split_status r :=
  repeat match goal with
         | |- context [Z.eqb (status r) ?k] => destruct (Z.eqb_spec (status r) k)
         end.

(** X1. [parseRedditError] on an Axios error: the classified error carries
    the HTTP status of the response as its [statusCode] (none when there was
    no response), its message is never empty, and it is a [RedditAPIError] or
    one of its subclasses, never a plain [Error]. An Axios error without a
    response (a network failure) is classified as unknown, with the code
    UNKNOWN_ERROR. *)
Theorem parseRedditError_keeps_the_status (response : option AxiosResponse) (msg : string) :
  let e := parseRedditError (TAxios response msg) in
  statusCode e = option_map status response
  /\ message e <> ""
  /\ cls e <> ErrorC
  /\ (response = None -> kindOf e = Unknown /\ errorCode e = Some "UNKNOWN_ERROR").
Proof.
  cbv zeta. unfold parseRedditError.
  destruct response as [r|]; cbn [option_map statusIs].
  - split; [split_status r; cbn; congruence |].
    split.
    { split_status r; cbn; try discriminate;
        apply orElse_nonempty; first [discriminate | destruct msg; discriminate]. }
    split; [split_status r; cbn; discriminate | discriminate].
  - cbn. split; [reflexivity |]. split.
    + destruct msg; discriminate.
    + split; [discriminate | auto].
Qed.

(** X2. After one classification by [parseRedditError], an error stops
    [retryWithBackoff] from retrying exactly when it came from an Axios error
    whose response has status 401, 403 or 404. Classifying a second time, as
    a caller does that catches an error already classified by a helper, keeps
    the message but loses the class and the status code: the result is
    always retried. *)
Theorem only_first_classification_stops_retries (error : Thrown) :
  (doNotRetry (TError (parseRedditError error)) = true <->
   exists r msg, error = TAxios (Some r) msg /\ In (status r) [401; 403; 404])
  /\ doNotRetry (TError (parseRedditError (TError (parseRedditError error)))) = false
  /\ statusCode (parseRedditError (TError (parseRedditError error))) = None
  /\ message (parseRedditError (TError (parseRedditError error)))
     = message (parseRedditError error).
Proof.
  split; [| repeat split].
  split.
  - destruct error as [[r|] msg | e | repr]; cbn; try discriminate.
    unfold statusIs. intros H. exists r, msg. split; [reflexivity |].
    cbn. revert H. split_status r; cbn; try discriminate; intros _; lia.
  - intros (r & msg & -> & Hin). cbn in Hin. cbn. unfold statusIs.
    split_status r; cbn; try reflexivity; lia.
Qed.

(** *** parseInt(s, 10) and the retry-after header *)

Import ErrorHandlerProofs.

Lemma readDigits_stops (c : ascii) (rest : string) (acc : option Z) :
  digitValue c = None -> readDigits (String c rest) acc = acc.
Proof. intros H. cbn [readDigits]. rewrite H. reflexivity. Qed.

Lemma readDigits_pos_acc_app (d : Decimal.uint) (tail : string) :
  forall p : positive,
    readDigits (NilEmpty.string_of_uint d ++ tail) (Some (Zpos p))
    = readDigits tail (Some (Zpos (Pos.of_uint_acc d p))).
Proof.
  induction d; intros p;
    cbn [NilEmpty.string_of_uint append readDigits Pos.of_uint_acc]; try reflexivity;
    lazymatch goal with
    | |- context [digitValue ?c] =>
        let v := eval vm_compute in (digitValue c) in
        change (digitValue c) with v; cbv iota beta
    end;
    match goal with
    | |- readDigits _ (Some ?a) = readDigits _ (Some (Zpos (Pos.of_uint_acc _ ?q))) =>
        replace a with (Zpos q) by lia; apply IHd
    end.
Qed.

Lemma readDigits_zero_acc_app (d : Decimal.uint) (tail : string) :
  readDigits (NilEmpty.string_of_uint d ++ tail) (Some 0)
  = readDigits tail (Some (Z.of_N (Pos.of_uint d))).
Proof.
  induction d;
    cbn [NilEmpty.string_of_uint append readDigits Pos.of_uint_acc Pos.of_uint];
    try reflexivity;
    lazymatch goal with
    | |- context [digitValue ?c] =>
        let v := eval vm_compute in (digitValue c) in
        change (digitValue c) with v; cbv iota beta
    end;
    try exact IHd;
    match goal with
    | |- readDigits _ (Some ?a) = readDigits _ (Some (Z.of_N (Npos (Pos.of_uint_acc _ ?q)))) =>
        replace a with (Zpos q) by lia; apply readDigits_pos_acc_app
    end.
Qed.

Lemma readDigits_fresh_app (d : Decimal.uint) (tail : string) :
  d <> Decimal.Nil ->
  readDigits (NilEmpty.string_of_uint d ++ tail) None
  = readDigits tail (Some (Z.of_N (Pos.of_uint d))).
Proof.
  destruct d; intros Hd; try congruence;
    cbn [NilEmpty.string_of_uint append readDigits Pos.of_uint_acc Pos.of_uint];
    lazymatch goal with
    | |- context [digitValue ?c] =>
        let v := eval vm_compute in (digitValue c) in
        change (digitValue c) with v; cbv iota beta
    end;
    first [ apply readDigits_zero_acc_app | apply readDigits_pos_acc_app ].
Qed.

Lemma parseInt10_not_a_number (c : ascii) (rest : string) :
  digitValue c = None -> isWhiteSpace c = false ->
  c <> "-"%char -> c <> "+"%char ->
  parseInt10 (String c rest) = None.
Proof.
  intros Hd Hw Hm Hp. unfold parseInt10. cbn [skipWhiteSpace]. rewrite Hw.
  assert (Hsig : match String c rest with
                 | String "-" r0 => (-1, r0)
                 | String "+" r0 => (1, r0)
                 | _ => (1, String c rest)
                 end = (1, String c rest)).
  { destruct c as [b0 b1 b2 b3 b4 b5 b6 b7].
    destruct b0, b1, b2, b3, b4, b5, b6, b7; try reflexivity; congruence. }
  rewrite Hsig, (readDigits_stops _ _ _ Hd). reflexivity.
Qed.

Lemma parseInt10_leading_numeral (n : N) (c : ascii) (rest : string) :
  digitValue c = None ->
  parseInt10 (NilEmpty.string_of_uint (N.to_uint n) ++ String c rest)%string
  = Some (Z.of_N n).
Proof.
  intros Hd.
  pose proof (to_uint_nonnil n) as Hn.
  destruct (string_of_uint_head _ Hn) as (c0 & r0 & Hcr & Hw & Hm & Hp).
  unfold parseInt10.
  assert (Hskip : skipWhiteSpace (NilEmpty.string_of_uint (N.to_uint n) ++ String c rest)%string
                  = (NilEmpty.string_of_uint (N.to_uint n) ++ String c rest)%string).
  { rewrite Hcr. cbn [append skipWhiteSpace]. rewrite Hw. reflexivity. }
  rewrite Hskip.
  assert (Hsig : match (NilEmpty.string_of_uint (N.to_uint n) ++ String c rest)%string with
                 | String "-" r1 => (-1, r1)
                 | String "+" r1 => (1, r1)
                 | _ => (1, (NilEmpty.string_of_uint (N.to_uint n) ++ String c rest)%string)
                 end
                 = (1, (NilEmpty.string_of_uint (N.to_uint n) ++ String c rest)%string)).
  { rewrite Hcr. cbn [append].
    destruct c0 as [b0 b1 b2 b3 b4 b5 b6 b7].
    destruct b0, b1, b2, b3, b4, b5, b6, b7; try reflexivity; congruence. }
  rewrite Hsig, (readDigits_fresh_app _ _ Hn), (readDigits_stops _ _ _ Hd).
  change (Pos.of_uint (N.to_uint n)) with (N.of_uint (N.to_uint n)).
  rewrite DecimalN.Unsigned.of_to. f_equal. lia.
Qed.

Lemma parseInt10_skips (ws : ascii) (s : string) :
  isWhiteSpace ws = true -> parseInt10 (String ws s) = parseInt10 s.
Proof.
  intros Hws. unfold parseInt10. cbn [skipWhiteSpace]. rewrite Hws. reflexivity.
Qed.

(** X3. On a 429 response the retry-after header is read as
    [parseInt(_, 10)] reads it. A header that starts with the decimal
    numeral of [n] (up to 2^53, where JavaScript numbers are exact) followed
    by a character that is not a digit gives [retryAfter = n], also when a
    white space character, the no-break space included, precedes the
    numeral. A header whose first character is neither a digit, a sign nor
    white space, such as an HTTP date, gives NaN: the error's [retryAfter]
    is NaN, the wait [retryWithBackoff] computes from it is NaN, and the
    message reads 'Rate limit exceeded. Retry after NaN seconds.' *)
Theorem retry_after_is_read_as_a_leading_integer (r : AxiosResponse) (msg : string) :
  status r = 429 ->
  let e := parseRedditError (TAxios (Some r) msg) in
  (forall (n : N) (c : ascii) (rest : string),
      digitValue c = None -> Z.of_N n <= 2 ^ 53 ->
      header_retry_after r
      = Some (NilZero.string_of_uint (N.to_uint n) ++ String c rest)%string ->
      retryAfter e = Some (Num (inject_Z (Z.of_N n))))
  /\
  (forall (n : N) (ws c : ascii) (rest : string),
      isWhiteSpace ws = true -> digitValue c = None -> Z.of_N n <= 2 ^ 53 ->
      header_retry_after r
      = Some (String ws (NilZero.string_of_uint (N.to_uint n) ++ String c rest))%string ->
      retryAfter e = Some (Num (inject_Z (Z.of_N n))))
  /\
  (forall (c : ascii) (rest : string),
      digitValue c = None -> isWhiteSpace c = false ->
      c <> "-"%char -> c <> "+"%char ->
      header_retry_after r = Some (String c rest) ->
      retryAfter e = Some NaN
      /\ retryAfterMs (TError e) = NaN
      /\ message e = "Rate limit exceeded. Retry after NaN seconds.").
Proof.
  intros Hst. cbv zeta. unfold parseRedditError, statusIs, option_map.
  rewrite Hst. cbn [Z.eqb Pos.eqb].
  split; [| split].
  - intros n c rest Hd _ Hh. rewrite Hh.
    rewrite numeral_NilEmpty.
    destruct (string_of_uint_head _ (to_uint_nonnil n)) as (c0 & r0 & Hcr & _).
    assert (Hor : orElse (Some (NilEmpty.string_of_uint (N.to_uint n) ++ String c rest)%string)
                    "60"
                  = (NilEmpty.string_of_uint (N.to_uint n) ++ String c rest)%string).
    { rewrite Hcr. reflexivity. }
    rewrite Hor, (parseInt10_leading_numeral n c rest Hd). reflexivity.
  - intros n ws c rest Hws Hd _ Hh. rewrite Hh.
    rewrite numeral_NilEmpty.
    change (orElse (Some (String ws (NilEmpty.string_of_uint (N.to_uint n)
                                     ++ String c rest))%string) "60")
      with (String ws (NilEmpty.string_of_uint (N.to_uint n) ++ String c rest))%string.
    rewrite (parseInt10_skips ws _ Hws), (parseInt10_leading_numeral n c rest Hd).
    reflexivity.
  - intros c rest Hd Hw Hm Hp Hh. rewrite Hh.
    change (orElse (Some (String c rest)) "60") with (String c rest).
    rewrite (parseInt10_not_a_number c rest Hd Hw Hm Hp).
    repeat split.
Qed.

(** *** validateConfig *)

Lemma append_nil_r (s : string) : (s ++ "")%string = s.
Proof. induction s as [|c s IH]; cbn; [reflexivity | rewrite IH; reflexivity]. Qed.

Lemma append_assoc (s1 s2 s3 : string) :
  ((s1 ++ s2) ++ s3)%string = (s1 ++ s2 ++ s3)%string.
Proof. induction s1 as [|c s1 IH]; cbn; [reflexivity | rewrite IH; reflexivity]. Qed.

Lemma concat_mentions (sep key : string) (l : list string) :
  In key l -> exists pre post, String.concat sep l = (pre ++ key ++ post)%string.
Proof.
  induction l as [|x l IH]; intros Hin; [contradiction |].
  destruct Hin as [-> | Hin].
  - destruct l as [|y l].
    + exists "", "". cbn. rewrite append_nil_r. reflexivity.
    + exists "", (sep ++ String.concat sep (y :: l))%string. reflexivity.
  - destruct (IH Hin) as (pre & post & Heq).
    destruct l as [|y l]; [contradiction |].
    exists (x ++ sep ++ pre)%string, post.
    change (String.concat sep (x :: y :: l))
      with (x ++ sep ++ String.concat sep (y :: l))%string.
    rewrite Heq. rewrite !append_assoc. reflexivity.
Qed.

(** X4. [validateConfig] returns exactly when REDDIT_CLIENT_ID,
    REDDIT_CLIENT_SECRET and REDDIT_USER_AGENT are all set and not empty.
    Otherwise it throws a plain [Error] whose message contains the name of
    every one of them that is absent or empty. No other variable of the
    environment has any influence on the result. *)
Theorem validateConfig_names_what_is_missing (config : string -> option string) :
  (validateConfig config = Returns tt <->
   forall key, In key requiredVariables -> truthy (config key) = true)
  /\
  (forall key,
      In key requiredVariables -> truthy (config key) = false ->
      exists e pre post,
        validateConfig config = Throws (TError e)
        /\ cls e = ErrorC
        /\ message e = (pre ++ key ++ post)%string)
  /\
  (forall config' : string -> option string,
      (forall key, In key requiredVariables -> config' key = config key) ->
      validateConfig config' = validateConfig config).
Proof.
  set (absent := fun cfg : string -> option string =>
                   filter (fun key => negb (truthy (cfg key))) requiredVariables).
  assert (Hret : forall cfg, absent cfg = [] -> validateConfig cfg = Returns tt).
  { intros cfg H. unfold validateConfig. fold (absent cfg). rewrite H. reflexivity. }
  assert (Hthrow : forall cfg key,
             In key (absent cfg) ->
             exists e pre post,
               validateConfig cfg = Throws (TError e) /\ cls e = ErrorC
               /\ message e = (pre ++ key ++ post)%string).
  { intros cfg key Hin. unfold validateConfig. fold (absent cfg).
    destruct (concat_mentions ", " key _ Hin) as (pre & post & Heq).
    destruct (absent cfg) as [|x l] eqn:Hab; [contradiction |].
    cbn [List.length Nat.ltb Nat.leb].
    eexists. exists ("Missing required environment variables: " ++ pre)%string.
    exists (post ++ newline
            ++ "Please check your .env file or environment configuration.")%string.
    split; [reflexivity |]. split; [reflexivity |].
    cbn [message newError]. rewrite Heq.
    rewrite !append_assoc. reflexivity. }
  split; [| split].
  - split.
    + intros Hok key Hin.
      destruct (truthy (config key)) eqn:Ht; [reflexivity |].
      assert (Hab : In key (absent config)).
      { apply filter_In. split; [exact Hin | rewrite Ht; reflexivity]. }
      destruct (Hthrow config key Hab) as (e & _ & _ & Hval & _).
      rewrite Hval in Hok. discriminate.
    + intros Hall. apply Hret.
      destruct (absent config) as [|x l] eqn:Hab; [reflexivity |].
      assert (Hin : In x (absent config)) by (rewrite Hab; left; reflexivity).
      apply filter_In in Hin. destruct Hin as [Hin Hneg].
      rewrite (Hall x Hin) in Hneg. discriminate.
  - intros key Hin Ht. apply Hthrow. apply filter_In.
    split; [exact Hin | rewrite Ht; reflexivity].
  - intros config' Hsame. unfold validateConfig.
    replace (filter (fun key => negb (truthy (config' key))) requiredVariables)
      with (filter (fun key => negb (truthy (config key))) requiredVariables);
      [reflexivity |].
    apply filter_ext_in. intros key Hin. rewrite (Hsame key Hin). reflexivity.
Qed.

(** *** The budget of the retry loop *)

(** X5. [retryWithBackoff] always settles, and calls [fn] at most
    [max(0, maxRetries + 1)] times; it sleeps once between two consecutive
    calls and draws one random number for each sleep. With a negative
    [maxRetries] the function is never called and an [Error] with the message
    'Max retries exceeded' is thrown. With [maxRetries >= 0], a first call
    that succeeds gives its value after one call and no wait. *)
Theorem retryWithBackoff_respects_its_budget
  (T : Type) (fn : nat -> Outcome T) (random : nat -> Q) (maxRetries : Z) (baseDelay : Q) :
  exists (r : Outcome T) (w : RetryWorld),
    retryWithBackoff fn random maxRetries baseDelay = (Some r, w)
    /\ Z.of_nat (invocations w) <= Z.max 0 (maxRetries + 1)
    /\ List.length (sleeps w) = Nat.pred (invocations w)
    /\ draws w = List.length (sleeps w)
    /\ (maxRetries < 0 ->
        invocations w = O
        /\ r = Throws (TError (newError "Max retries exceeded")))
    /\ (0 <= maxRetries -> forall v, fn O = Returns v ->
        r = Returns v /\ w = mkRetryWorld 1 0 []).
Proof.
  destruct (retryWithBackoff_finishes fn random maxRetries baseDelay)
    as (r & w & Hrun & Hdraws & Hwaits & Hneg & Hpos).
  exists r, w. split; [exact Hrun |].
  destruct (Z.lt_ge_cases maxRetries 0) as [Hlt | Hge].
  - destruct (Hneg Hlt) as (Hinv & Hsl & Hr).
    rewrite Hinv, Hdraws, Hsl. cbn.
    split; [lia |]. split; [reflexivity |]. split; [reflexivity |].
    split; [auto | lia].
  - destruct (Hpos Hge) as (Hinv & Hle & Hlast).
    rewrite Hinv, Hdraws. cbn [Nat.pred].
    split; [lia |]. split; [reflexivity |]. split; [reflexivity |].
    split; [lia |].
    intros _ v Hfn.
    destruct w as [inv dr sl]; cbn [invocations draws sleeps] in *.
    destruct sl as [|x sl].
    + cbn [List.length] in *. rewrite Hfn in Hlast. subst. auto.
    + exfalso. destruct (Hwaits O) as (error & Herr & _); [cbn; lia |].
      rewrite Hfn in Herr. discriminate.
Qed.

(** *** Instances *)

Lemma parseRedditError_keeps_the_status_witness :
  kindOf (parseRedditError (TAxios None "Network Error")) = Unknown
  /\ statusCode (parseRedditError (TAxios None "Network Error")) = None.
Proof.
  destruct (parseRedditError_keeps_the_status None "Network Error")
    as (Hst & _ & _ & Hnone).
  split; [exact (proj1 (Hnone eq_refl)) | exact Hst].
Defined.

Lemma only_first_classification_stops_retries_witness :
  doNotRetry (TError (parseRedditError
                        (TAxios (Some (mkResponse 404 None None)) "Not Found"))) = true.
Proof.
  apply (proj1 (only_first_classification_stops_retries
                  (TAxios (Some (mkResponse 404 None None)) "Not Found"))).
  exists (mkResponse 404 None None), "Not Found".
  split; [reflexivity | cbn; lia].
Defined.

Lemma retry_after_is_read_as_a_leading_integer_witness :
  retryAfter (parseRedditError
                (TAxios (Some (mkResponse 429 None (Some "30 seconds"))) "Too Many Requests"))
  = Some (Num 30)
  /\ retryAfter (parseRedditError
                   (TAxios (Some (mkResponse 429 None
                                    (Some (String (ascii_of_nat 160) "30;"))))
                      "Too Many Requests"))
     = Some (Num 30).
Proof.
  split.
  - apply (proj1 (retry_after_is_read_as_a_leading_integer
                    (mkResponse 429 None (Some "30 seconds")) "Too Many Requests" eq_refl)
             30%N " "%char "seconds");
      [reflexivity | vm_compute; discriminate | reflexivity].
  - apply (proj1 (proj2 (retry_after_is_read_as_a_leading_integer
                           (mkResponse 429 None (Some (String (ascii_of_nat 160) "30;")))
                           "Too Many Requests" eq_refl))
             30%N (ascii_of_nat 160) ";"%char "");
      [reflexivity | reflexivity | vm_compute; discriminate | reflexivity].
Defined.

Lemma validateConfig_names_what_is_missing_witness :
  exists e pre post,
    validateConfig (fun key => if String.eqb key "REDDIT_CLIENT_ID" then Some "id" else None)
    = Throws (TError e)
    /\ cls e = ErrorC
    /\ message e = (pre ++ "REDDIT_USER_AGENT" ++ post)%string.
Proof.
  apply (proj1 (proj2 (validateConfig_names_what_is_missing
                         (fun key => if String.eqb key "REDDIT_CLIENT_ID"
                                     then Some "id" else None)))).
  - right. right. left. reflexivity.
  - reflexivity.
Defined.

Lemma retryWithBackoff_respects_its_budget_witness :
  exists w,
    retryWithBackoff (fun _ : nat => Returns 1) (fun _ => 0%Q) (-1) 1000
    = (Some (Throws (TError (newError "Max retries exceeded"))), w)
    /\ invocations w = O.
Proof.
  destruct (retryWithBackoff_respects_its_budget Z (fun _ : nat => Returns 1)
              (fun _ => 0%Q) (-1) 1000)
    as (r & w & Hrun & _ & _ & _ & Hneg & _).
  destruct (Hneg ltac:(lia)) as [Hinv Hr].
  exists w. rewrite Hrun, Hr. split; [reflexivity | exact Hinv].
Defined.

End ErrorHandlerFacts.

(** ** More on src/utils/rate-limiter.ts *)

Module RateLimiterFacts.

Import RateLimiter.
Import RateLimiterProofs.

(** *** The limit on admissions *)


Lemma granted_app (s : t) (h : list Effect) (more : list Effect) :
  history s = h ++ more ->
  List.length (granted s) = (List.length (pick grantedId h) + List.length (pick grantedId more))%nat.
Proof.
  intros H. unfold granted. rewrite H, pick_app, length_app. reflexivity.
Qed.


Lemma granted_Rejected (q : list nat) (msg : string) :
  pick grantedId (map (fun item => Rejected item msg) q) = [].
Proof. induction q as [|x l IH]; cbn; [reflexivity | exact IH]. Qed.






(** *** Reading the status *)

Lemma refill_again_at_once (s : t) (now : Z) :
  (tokens (refillTokens now (refillTokens now s)) == tokens (refillTokens now s))%Q.
Proof.
  change now with (lastRefill (refillTokens now s)) at 1.
  apply refillTokens_same_instant. cbn. apply Q.le_min_l.
Qed.

(** X7. [getStatus()] leaves the queue, the timers, the count of calls and
    the record of callbacks alone, and does not change what a status read
    or an [acquire()] at the same reading of the clock answers. It is not
    neutral for later calls: it refills, and a refill made in two steps
    rounds differently from one made in a single step. With a capacity of
    10 spent at time 0, [acquire()] at 6000 ms is let through, but after a
    [getStatus()] at 2 ms the same call has to wait. *)
Theorem status_reads_are_neutral_at_the_same_instant_only :
  (forall (s : t) (now : Z),
      let s1 := snd (getStatus now s) in
      queue s1 = queue s /\ history s1 = history s
      /\ timers s1 = timers s /\ calls s1 = calls s
      /\ fst (getStatus now s1) = fst (getStatus now s)
      /\ fst (acquire now s1) = fst (acquire now s))
  /\
  (let spent := RateLimiterDouble.run (RateLimiterDouble.new 10 0) (repeat (EAcquire 0) 10) in
   RateLimiterDouble.tokens spent = 0%float
   /\ fst (RateLimiterDouble.acquire 6000 spent) = Completed
   /\ fst (RateLimiterDouble.acquire 6000 (snd (RateLimiterDouble.getStatus 2 spent)))
      = Pending).
Proof.
  split.
  - intros s now s1.
    pose proof (refill_again_at_once s now) as Htw.
    repeat (split; [reflexivity |]).
    split.
    + unfold getStatus. cbn [fst]. f_equal.
      apply Qfloor_comp. exact Htw.
    + unfold acquire. subst s1. cbn [getStatus snd].
      rewrite (Qleb_comp 1%Q 1%Q (Qeq_refl 1%Q) _ _ Htw).
      destruct (Qle_bool 1 (tokens (refillTokens now s))); reflexivity.
  - vm_compute. repeat split.
Qed.

(** X8. [getStatus()] and [acquire()] agree: at every instant and in every
    state, the [remaining] count reported is at least 1 exactly when a call
    of [acquire()] at that instant is let through at once. *)
Theorem status_agrees_with_acquire (s : t) (now : Z) :
  1 <= remaining (fst (getStatus now s)) <-> fst (acquire now s) = Completed.
Proof.
  unfold getStatus, acquire. cbn [fst remaining].
  destruct (Qle_bool 1 (tokens (refillTokens now s))) eqn:Hge; cbn [fst].
  - apply Qle_bool_iff in Hge. split; [reflexivity |]. intros _.
    apply (Qfloor_resp_le 1%Q) in Hge. exact Hge.
  - split; [| discriminate]. intros Hfl. exfalso.
    assert (Hle : (1 <= tokens (refillTokens now s))%Q).
    { apply Qle_trans with (inject_Z (Qfloor (tokens (refillTokens now s))));
        [| apply Qfloor_le].
      change 1%Q with (inject_Z 1). rewrite <- Zle_Qle. exact Hfl. }
    apply Qle_bool_iff in Hle. congruence.
Qed.

(** *** Timers *)

(** X9. The delay given to [setTimeout] can be too short. With a capacity
    of 10 spent at time 0, an [acquire()] at 2 ms has to wait and sets a
    timer of 5998 ms; the callback, run exactly then, finds less than one
    token (0.9999999999999999), resolves nobody and sets a new timer of 1
    ms, whose callback resolves the waiter. In general a timer callback
    that leaves waiters in the queue sets one new timer, so a waiter is
    delayed by such a miss, never forgotten. *)
Theorem scheduled_delay_can_be_too_short :
  (let spent := RateLimiterDouble.run (RateLimiterDouble.new 10 0) (repeat (EAcquire 0) 10) in
   let waiting := RateLimiterDouble.step spent (EAcquire 2) in
   let fired := RateLimiterDouble.step waiting (ETimeout (2 + 5998)) in
   RateLimiterDouble.queue waiting = [10%nat]
   /\ RateLimiterDouble.timers waiting = [mkTimer 2 (Some 5998)]
   /\ (RateLimiterDouble.tokens fired <? 1)%float = true
   /\ RateLimiterDouble.queue fired = [10%nat]
   /\ RateLimiterDouble.history fired = RateLimiterDouble.history waiting
   /\ RateLimiterDouble.timers fired = [mkTimer 6000 (Some 1)]
   /\ RateLimiterDouble.history (RateLimiterDouble.step fired (ETimeout 6001))
      = RateLimiterDouble.history fired ++ [Resolved 10%nat])
  /\
  (forall (s : t) (now : Z) (tm : Timer) (rest : list Timer),
      timers s = tm :: rest ->
      queue (step s (ETimeout now)) <> [] ->
      exists d, timers (step s (ETimeout now)) = rest ++ [mkTimer now d]).
Proof.
  split; [vm_compute; repeat split |].
  intros s now tm rest Htm. cbn [step]. rewrite Htm.
  unfold onTimeout, processQueue.
  match goal with |- context [drain ?q ?x] => destruct (drain q x) as [[q' tok'] eff] end.
  unfold scheduleRefill. cbn [queue timers].
  destruct q' as [|a q']; cbn [queue timers]; [congruence |].
  intros _. eexists. reflexivity.
Qed.

(** *** Newcomers and waiters *)

Lemma settled_app (s : t) (h more : list Effect) :
  history s = h ++ more -> settled s = pick settledId h ++ pick settledId more.
Proof. intros H. unfold settled. rewrite H, pick_app. reflexivity. Qed.

Lemma starved_round (T : Z) (k : nat) (s : t) :
  starved T k s ->
  starved (T + 60000) (S k)
    (step (step s (EAcquire (T + 60000))) (ETimeout (T + 60000))).
Proof.
  intros (Htok & Hmax & Hrate & Hlast & Hq & Hset & Hgr).
  assert (Hfull : (tokens (refillTokens (T + 60000) s) == 1)%Q).
  { cbn [tokens refillTokens]. rewrite Hmax, Hrate, Hlast, Htok.
    replace (T + 60000 - T) with 60000 by lia. reflexivity. }
  set (s1 := step s (EAcquire (T + 60000))).
  assert (H1 : (tokens s1 == 0)%Q /\ maxTokens s1 = 1%Q /\ refillRate s1 = (1 / 60000)%Q
               /\ lastRefill s1 = T + 60000 /\ queue s1 = [1%nat] /\ settled s1 = []
               /\ List.length (granted s1) = S (S k)).
  { subst s1. cbn [step].
    destruct (acquire_effect (T + 60000) s)
      as (_ & Hm & Hr & Hl & [(_ & _ & Ht & Hq' & _ & Hh) | (_ & Hno & _)]).
    - rewrite Ht, Hm, Hr, Hl, Hq', (settled_app _ _ _ Hh), (granted_app _ _ _ Hh).
      fold (settled s). fold (granted s). rewrite Hset, Hgr, Hfull.
      cbn [pick settledId grantedId List.length app].
      repeat split; try assumption; try lra; try lia; try reflexivity.
    - exfalso. apply Hno. rewrite Hfull. lra. }
  destruct H1 as (Htok1 & Hmax1 & Hrate1 & Hlast1 & Hq1 & Hset1 & Hgr1).
  cbn [step].
  destruct (timers s1) as [|tm rest] eqn:Htm.
  - unfold starved. repeat split; assumption.
  - set (x := mk (tokens s1) (maxTokens s1) (refillRate s1) (lastRefill s1)
                 (queue s1) (calls s1) rest (history s1)).
    assert (Hsame : (tokens (refillTokens (T + 60000) x) == 0)%Q).
    { cbn [tokens refillTokens x maxTokens lastRefill refillRate].
      rewrite Hmax1, Hlast1, Htok1, Z.sub_diag. reflexivity. }
    destruct (onTimeout_effect (T + 60000) x)
      as (_ & Hm & Hr & Hl & ids & Hq' & Hh & Ht & _ & Hsome & _).
    assert (Hids : ids = []).
    { destruct ids as [|i l]; [reflexivity |]. exfalso.
      assert (H : (1 <= tokens (refillTokens (T + 60000) x))%Q)
        by (apply Hsome; discriminate).
      rewrite Hsame in H. lra. }
    subst ids. cbn [app map List.length Z.of_nat] in Hq', Hh, Ht.
    rewrite app_nil_r in Hh.
    cbn [x queue history maxTokens refillRate] in Hq', Hh, Hm, Hr.
    unfold starved, settled, granted.
    rewrite Hm, Hr, Hl, Hh, <- Hq', Ht, Hsame.
    fold (settled s1). fold (granted s1).
    repeat split; try assumption; try (unfold inject_Z; lra).
Qed.

Lemma starved_rounds (n : nat) :
  forall (T : Z) (k : nat) (s : t),
    starved T k s -> starved (T + 60000 * Z.of_nat n) (k + n) (run s (minuteRounds T n)).
Proof.
  induction n as [|n IH]; intros T k s Hs.
  - cbn [minuteRounds run fold_left]. replace (T + 60000 * Z.of_nat 0) with T by lia.
    rewrite Nat.add_0_r. exact Hs.
  - cbn [minuteRounds].
    change (run s (EAcquire (T + 60000) :: ETimeout (T + 60000)
                     :: minuteRounds (T + 60000) n))
      with (run (step (step s (EAcquire (T + 60000))) (ETimeout (T + 60000)))
              (minuteRounds (T + 60000) n)).
    replace (T + 60000 * Z.of_nat (S n)) with (T + 60000 + 60000 * Z.of_nat n) by lia.
    replace (k + S n)%nat with (S k + n)%nat by lia.
    apply IH. apply starved_round. exact Hs.
Qed.

Lemma minuteRounds_chronological (n : nat) :
  forall T, chronological T (minuteRounds T n).
Proof.
  induction n as [|n IH]; intros T; cbn [minuteRounds chronological eventTime].
  - exact I.
  - split; [lia |]. split; [lia |]. apply IH.
Qed.

Lemma starved_start (t0 : Z) :
  starved t0 O (run (new 1 t0) [EAcquire t0; EAcquire t0]).
Proof.
  change (run (new 1 t0) [EAcquire t0; EAcquire t0])
    with (snd (acquire t0 (snd (acquire t0 (new 1 t0))))).
  destruct (acquire_afterGrants 1%positive t0 O (new 1 t0) (afterGrants_new 1%positive t0)
              ltac:(cbn; lia)) as [_ Hs1].
  set (s1 := snd (acquire t0 (new 1 t0))) in *.
  destruct Hs1 as (Htok & Hmax & Hlast & Hq & Hc & _ & Hh).
  change (inject_Z (Z.of_nat 1)) with 1%Q in Htok.
  change (inject_Z 1) with 1%Q in *.
  assert (Hrate : refillRate s1 = (1 / 60000)%Q).
  { destruct (step_constants (new 1 t0) (EAcquire t0)) as [_ Hr]. exact Hr. }
  assert (Hsame : (tokens (refillTokens t0 s1) == 0)%Q).
  { rewrite <- Hlast at 1. rewrite refillTokens_same_instant; [| rewrite Htok, Hmax; lra].
    rewrite Htok. reflexivity. }
  destruct (acquire_effect t0 s1)
    as (_ & Hm' & Hr' & Hl' & [(_ & Hge & _) | (_ & _ & Ht' & Hq' & _ & Hh')]).
  - exfalso. rewrite Hsame in Hge. lra.
  - unfold starved, settled, granted.
    rewrite Ht', Hm', Hr', Hl', Hq', Hh', Hh, Hq, Hc, Hsame, Hmax, Hrate.
    cbn. repeat split; try reflexivity.
Qed.

(** X10. The limiter is not fair to waiters. With a capacity of one per
    minute, take a caller that is queued behind a spent bucket. If once a
    minute a new [acquire()] arrives at the same reading of the clock as the
    timer callback and runs before it, then every newcomer is let through at
    once and, after any number [n] of such rounds, the queued caller is still
    waiting: it was pushed, never settled, [n + 1] other calls were let
    through, and a timer is pending. *)
Theorem a_waiter_can_be_overtaken_without_end (t0 : Z) (n : nat) :
  let evs := EAcquire t0 :: EAcquire t0 :: minuteRounds t0 n in
  let s := run (new 1 t0) evs in
  chronological t0 evs
  /\ pushed s = [1%nat] /\ queue s = [1%nat] /\ settled s = []
  /\ List.length (granted s) = S n
  /\ timers s <> [].
Proof.
  intros evs s.
  pose proof (starved_start t0) as Hstart.
  pose proof (starved_rounds n t0 O _ Hstart) as Hfin.
  change (starved (t0 + 60000 * Z.of_nat n) (0 + n) s) in Hfin.
  destruct Hfin as (_ & _ & _ & _ & Hq & Hset & Hgr).
  pose proof (consistent_run evs _ (consistent_new 1 t0)) as Hcons.
  change (consistent s) in Hcons. destruct Hcons as (Hfifo & _).
  split.
  - subst evs. cbn [chronological eventTime].
    split; [lia |]. split; [lia |]. apply minuteRounds_chronological.
  - split; [transitivity (settled s ++ queue s); [exact Hfifo | rewrite Hset, Hq; reflexivity] |].
    split; [exact Hq |]. split; [exact Hset |]. split; [exact Hgr |].
    apply (run_awake evs (new 1 t0)); [cbn; congruence |].
    change (queue s <> []). rewrite Hq. discriminate.
Qed.

(** *** Capacities below one *)

Lemma step_never_grants (s : t) (ev : Event) :
  (maxTokens s < 1)%Q -> granted s = [] -> granted (step s ev) = [].
Proof.
  intros Hmax Hg. unfold granted in *.
  destruct ev as [now | now | now | now]; cbn [step].
  - pose proof (Q.le_min_l (maxTokens s)
                  (tokens s + inject_Z (now - lastRefill s) * refillRate s)%Q) as Hmin.
    destruct (acquire_effect now s)
      as (_ & _ & _ & _ & [(_ & Hge & _) | (_ & _ & _ & _ & _ & Hh)]).
    + exfalso. cbn [tokens refillTokens] in Hge. lra.
    + rewrite Hh, pick_app, Hg. reflexivity.
  - destruct (timers s) as [|tm rest]; [exact Hg |].
    match goal with |- context [onTimeout now ?x] =>
      destruct (onTimeout_effect now x) as (_ & _ & _ & _ & ids & _ & Hh & _ & _ & Hsome & _)
    end.
    pose proof (Q.le_min_l (maxTokens s)
                  (tokens s + inject_Z (now - lastRefill s) * refillRate s)%Q) as Hmin.
    destruct ids as [|i l].
    + cbn [history map] in Hh. rewrite Hh, app_nil_r. exact Hg.
    + exfalso.
      assert (H : (1 <= Qmin (maxTokens s)
                          (tokens s + inject_Z (now - lastRefill s) * refillRate s))%Q)
        by (apply Hsome; discriminate).
      lra.
  - cbn. exact Hg.
  - cbn [reset history]. rewrite pick_app, Hg, granted_Rejected. reflexivity.
Qed.

Lemma run_never_grants (evs : list Event) :
  forall s, (maxTokens s < 1)%Q -> granted s = [] -> granted (run s evs) = [].
Proof.
  induction evs as [|ev evs IH]; intros s Hmax Hg; [exact Hg |].
  change (run s (ev :: evs)) with (run (step s ev) evs).
  apply IH.
  - destruct (step_constants s ev) as [Hm _]. rewrite Hm. exact Hmax.
  - apply step_never_grants; assumption.
Qed.

Lemma granted_of_Granted (h : list Effect) (id : nat) :
  In (Granted id) h -> In id (pick grantedId h).
Proof.
  induction h as [|e h IH]; cbn; [tauto |].
  intros [-> | H]; [left; reflexivity |].
  destruct (grantedId e); [right |]; auto.
Qed.

Lemma granted_of_resolved (h : list Effect) (id : nat) :
  In id (pick resolvedId h) -> In id (pick grantedId h).
Proof.
  induction h as [|e h IH]; cbn; [tauto |].
  destruct e; cbn; intros H; try (destruct H as [-> | H]); auto.
Qed.

(** X11. A limiter built with [requestsPerMinute] below one (zero, a
    negative number or a fraction) never lets a call through, whatever the
    events and their times: every call of [acquire()] made so far is
    either still queued or was rejected by a [reset()]. *)
Theorem a_capacity_below_one_admits_nobody
  (requestsPerMinute : Q) (t0 : Z) (evs : list Event) :
  (requestsPerMinute < 1)%Q ->
  let s := run (new requestsPerMinute t0) evs in
  granted s = []
  /\ (forall id, (id < calls s)%nat -> In id (queue s) \/ In id (rejected s)).
Proof.
  intros Hcap s.
  assert (Hg : granted s = []).
  { apply run_never_grants; [exact Hcap | reflexivity]. }
  split; [exact Hg |].
  intros id Hid.
  pose proof (consistent_run evs _ (consistent_new requestsPerMinute t0)) as Hcons.
  change (consistent s) in Hcons. destruct Hcons as (Hfifo & _).
  assert (Hacc : In (Granted id) (history s) \/ In id (pushed s)).
  { apply (run_accounts evs (new requestsPerMinute t0)); [| exact Hid].
    cbn. intros x H. inversion H. }
  destruct Hacc as [Hgr | Hpu].
  - exfalso. apply granted_of_Granted in Hgr. fold (granted s) in Hgr.
    rewrite Hg in Hgr. destruct Hgr.
  - rewrite Hfifo in Hpu. apply in_app_or in Hpu. destruct Hpu as [Hs | Hq]; [| auto].
    apply settled_split in Hs. destruct Hs as [Hres | Hrej]; [| right; exact Hrej].
    exfalso. apply granted_of_resolved in Hres. fold (granted s) in Hres.
    rewrite Hg in Hres. destruct Hres.
Qed.

(** *** Bursts *)

Lemma burst (n : nat) :
  forall (s : t) (now : Z),
    lastRefill s = now -> (tokens s <= maxTokens s)%Q ->
    (inject_Z (Z.of_nat n) <= tokens s)%Q ->
    fst (acquireMany n now s) = repeat Completed n
    /\ queue (snd (acquireMany n now s)) = queue s.
Proof.
  induction n as [|n IH]; intros s now Hlast Hcap Hn; [split; reflexivity |].
  cbn [acquireMany].
  rewrite Nat2Z.inj_succ in Hn. unfold Z.succ in Hn. rewrite inject_Z_plus in Hn.
  change (inject_Z 1) with 1%Q in Hn.
  assert (Hnn : (0 <= inject_Z (Z.of_nat n))%Q).
  { change 0%Q with (inject_Z 0). rewrite <- Zle_Qle. lia. }
  assert (Hsame : (tokens (refillTokens now s) == tokens s)%Q).
  { rewrite <- Hlast. apply refillTokens_same_instant. exact Hcap. }
  destruct (acquire_effect now s)
    as (_ & Hm & _ & Hl & [(Hr & _ & Ht & Hq & _ & _) | (_ & Hno & _)]).
  - destruct (acquire now s) as [r s1]. cbn [fst snd] in *.
    destruct (IH s1 now Hl) as [Hrs Hqs].
    + rewrite Ht, Hm, Hsame. lra.
    + rewrite Ht, Hsame. lra.
    + destruct (acquireMany n now s1) as [rs s2]. cbn [fst snd] in *.
      rewrite Hr, Hrs, Hqs, Hq. split; reflexivity.
  - exfalso. apply Hno. rewrite Hsame. lra.
Qed.

(** X12. [reset()] gives back a full bucket: in every state, the next [n]
    calls of [acquire()] at the instant of the reset, for any [n] up to the
    capacity, are all let through at once, and none is queued. *)
Theorem reset_gives_back_a_full_burst (s : t) (now : Z) (n : nat) :
  (inject_Z (Z.of_nat n) <= maxTokens s)%Q ->
  fst (acquireMany n now (reset now s)) = repeat Completed n
  /\ queue (snd (acquireMany n now (reset now s))) = [].
Proof.
  intros Hn.
  apply (burst n (reset now s) now); cbn [reset lastRefill tokens maxTokens].
  - reflexivity.
  - lra.
  - exact Hn.
Qed.

(** *** Instances *)


Lemma status_agrees_with_acquire_witness :
  fst (acquire 0 (new 2 0)) = Completed.
Proof.
  apply (proj1 (status_agrees_with_acquire (new 2 0) 0)).
  vm_compute. discriminate.
Defined.

Lemma a_capacity_below_one_admits_nobody_witness :
  granted (run (new 0 0) [EAcquire 0; EAcquire 60000; ETimeout 120000]) = [].
Proof.
  apply (a_capacity_below_one_admits_nobody 0 0
           [EAcquire 0; EAcquire 60000; ETimeout 120000]).
  vm_compute. reflexivity.
Defined.

Lemma reset_gives_back_a_full_burst_witness :
  fst (acquireMany 2 7 (reset 7 (snd (acquireMany 3 0 (new 2 0)))))
  = [Completed; Completed].
Proof.
  apply (reset_gives_back_a_full_burst (snd (acquireMany 3 0 (new 2 0))) 7 2).
  vm_compute. discriminate.
Defined.

End RateLimiterFacts.

(** ** More on src/auth/reddit-auth.ts *)

Module RedditAuthFacts.

Import ErrorHandler.
Import RedditAuth.

(** Runs a method body symbolically, one branch per way it can go. *)
Ltac run_method H :=
  unfold createAuthenticatedClient, getAccessToken, revokeToken,
    authenticateWithRefreshToken, authenticateWithPassword,
    tryCatch, bind, ret, throw, post, handleAuthResponse, consoleError, clearToken in H;
  repeat match type of H with
         | context [match ?x with _ => _ end] =>
             match x with
             | context [match _ with _ => _ end] => fail 1
             | _ => destruct x eqn:?
             end
         | context [if ?x then _ else _] =>
             match x with
             | context [if _ then _ else _] => fail 1
             | context [match _ with _ => _ end] => fail 1
             | _ => destruct x eqn:?
             end
         end;
  try discriminate H.

Lemma classified_is_not_plain (error : Thrown) : cls (parseRedditError error) <> ErrorC.
Proof.
  destruct error as [[r|] msg | e | repr]; cbn; try discriminate.
  unfold statusIs.
  repeat match goal with
         | |- context [Z.eqb (status r) ?k] => destruct (Z.eqb_spec (status r) k)
         end; cbn; discriminate.
Qed.

Section AuthFacts.

Variable config : RedditConfig.
Variable server : Server.

Lemma longer_is_different {A : Type} (l more : list A) :
  more <> [] -> l ++ more <> l.
Proof.
  intros Hne H. apply (f_equal (@List.length A)) in H.
  rewrite length_app in H. destruct more; [congruence | cbn in H; lia].
Qed.

Ltac no_request :=
  match goal with
  | H : (_ ++ [_]) ++ [_] = _ |- _ =>
      rewrite <- app_assoc in H; apply longer_is_different in H; [destruct H | discriminate]
  | H : _ ++ [_] = _ |- _ =>
      apply longer_is_different in H; [destruct H | discriminate]
  end.

(** A call that returns without sending anything was answered from the
    cache. *)
Lemma silent_success_is_a_cache_hit (s s' : t) (w w' : World) (token : string) :
  getAccessToken config server (s, w) = (Returns token, (s', w')) ->
  sent w' = sent w ->
  truthy (accessToken s) = true /\ now w < tokenExpiry s - 60000
  /\ s' = s /\ w' = w /\ accessToken s = Some token.
Proof.
  intros H Hsent. run_method H; inversion H; subst; clear H;
    cbn [sent] in Hsent; try no_request.
  match goal with
  | Hv : _ && _ = true |- _ => apply andb_true_iff in Hv; destruct Hv as [Ht Hn]
  end.
  apply Z.ltb_lt in Hn.
  repeat split; try assumption.
  destruct (accessToken s') as [tok|]; [reflexivity | discriminate].
Qed.

(** X13. When [createAuthenticatedClient()] returns, it has obtained a
    token from [getAccessToken()], with the same effects on the instance and
    on the network; the client's Authorization header is 'Bearer ' followed
    by that token, which is the access token the instance now holds; the
    base URL is https://oauth.reddit.com and the user agent is the
    configured one. *)
Theorem client_bears_the_cached_token
  (s s' : t) (w w' : World) (client : AuthenticatedClient) :
  createAuthenticatedClient config server (s, w) = (Returns client, (s', w')) ->
  exists token,
    getAccessToken config server (s, w) = (Returns token, (s', w'))
    /\ accessToken s' = Some token
    /\ authorization client = ("Bearer " ++ token)%string
    /\ baseURL client = "https://oauth.reddit.com"
    /\ clientUserAgent client = userAgent config.
Proof.
  intros H. unfold createAuthenticatedClient, bind in H.
  destruct (getAccessToken config server (s, w)) as [[token | thrown] [s1 w1]] eqn:Hget;
    [| discriminate].
  unfold ret in H. inversion H; subst; clear H.
  exists token. split; [reflexivity |]. split; [| repeat split].
  run_method Hget; inversion Hget; subst; clear Hget; try reflexivity.
  destruct (accessToken s') as [tok|]; [reflexivity | discriminate].
Qed.

(** X14. A call of [getAccessToken()], [revokeToken()] or
    [createAuthenticatedClient()] that throws leaves the access token, its
    expiry and the refresh token as they were, and what it throws is a
    [RedditAPIError] or one of its subclasses, never a raw Axios error or a
    plain [Error]. *)
Theorem failed_authentication_changes_nothing (s s' : t) (w w' : World) (thrown : Thrown) :
  (getAccessToken config server (s, w) = (Throws thrown, (s', w'))
   \/ revokeToken server (s, w) = (Throws thrown, (s', w'))
   \/ createAuthenticatedClient config server (s, w) = (Throws thrown, (s', w'))) ->
  s' = s /\ exists e, thrown = TError e /\ cls e <> ErrorC.
Proof.
  intros [H | [H | H]]; run_method H; inversion H; subst; clear H;
    (split; [reflexivity |]); eexists; (split; [reflexivity |]);
    first [ apply classified_is_not_plain | discriminate ].
Qed.

(** X15. [getAccessToken()] never loses the refresh token. When the call
    throws, or is answered from the cache, the refresh token is left as it
    was. When it returns a token obtained from the server, that token is
    the [access_token] of the response to the last request sent, and the
    refresh token held afterwards is the [refresh_token] of that response
    when it is present and not empty, and the one held before otherwise.
    So a refresh token that is stored stays stored. *)
Theorem the_refresh_token_is_never_lost
  (s s' : t) (w w' : World) (r : Outcome string) :
  getAccessToken config server (s, w) = (r, (s', w')) ->
  (truthy (refreshToken s) = true -> truthy (refreshToken s') = true)
  /\ match r with
     | Throws _ => refreshToken s' = refreshToken s
     | Returns token =>
         (sent w' = sent w /\ refreshToken s' = refreshToken s)
         \/
         (exists (before : list Request) (req : Request) (d : RedditAuthResponse),
             sent w' = before ++ [req]
             /\ snd (server (List.length before) req) = Fulfilled d
             /\ access_token d = token
             /\ refreshToken s'
                = if truthy (refresh_token d) then refresh_token d else refreshToken s)
     end.
Proof.
  intros H.
  assert (Hcases :
    match r with
    | Throws _ => refreshToken s' = refreshToken s
    | Returns token =>
        (sent w' = sent w /\ refreshToken s' = refreshToken s)
        \/
        (exists (before : list Request) (req : Request) (d : RedditAuthResponse),
            sent w' = before ++ [req]
            /\ snd (server (List.length before) req) = Fulfilled d
            /\ access_token d = token
            /\ refreshToken s'
               = if truthy (refresh_token d) then refresh_token d else refreshToken s)
    end).
  { run_method H; inversion H; subst; clear H;
      cbn [refreshToken sent] in *; try reflexivity;
      first
        [ left; split; reflexivity
        | right;
          match goal with
          | Hs : server (List.length ?before) ?req = (_, Fulfilled ?d) |- _ =>
              exists before, req, d;
              split; [reflexivity |]; split; [rewrite Hs; reflexivity |];
              split; [reflexivity |];
              repeat match goal with
                     | Ht : truthy _ = _ |- _ => rewrite Ht
                     end; reflexivity
          end ]. }
  split; [| exact Hcases].
  intros Ht. destruct r as [token | thrown].
  - destruct Hcases as [[_ ->] | (before & req & d & _ & _ & _ & ->)]; [exact Ht |].
    destruct (truthy (refresh_token d)) eqn:Hd; [exact Hd | exact Ht].
  - rewrite Hcases. exact Ht.
Qed.

(** X16. [getAccessToken()] returns without sending a request exactly
    when a non-empty access token is cached and the clock reads more than 60
    seconds before its expiry. In that case it returns the cached token and
    changes nothing, and [isAuthenticated()] answers true. *)
Theorem cache_answers_are_exactly_the_silent_ones (s : t) (w : World) :
  ((exists token s' w',
       getAccessToken config server (s, w) = (Returns token, (s', w'))
       /\ sent w' = sent w)
   <-> truthy (accessToken s) = true /\ now w < tokenExpiry s - 60000)
  /\
  (truthy (accessToken s) = true -> now w < tokenExpiry s - 60000 ->
   getAccessToken config server (s, w) = (Returns (valueOf (accessToken s)), (s, w))
   /\ isAuthenticated (s, w) = (Returns true, (s, w))).
Proof.
  assert (Hhit : truthy (accessToken s) = true -> now w < tokenExpiry s - 60000 ->
                 getAccessToken config server (s, w)
                 = (Returns (valueOf (accessToken s)), (s, w))).
  { intros Ht Hn. unfold getAccessToken. rewrite Ht.
    apply Z.ltb_lt in Hn. rewrite Hn. reflexivity. }
  split.
  - split.
    + intros (token & s' & w' & H & Hsent).
      destruct (silent_success_is_a_cache_hit s s' w w' token H Hsent) as (Ht & Hn & _).
      auto.
    + intros [Ht Hn]. exists (valueOf (accessToken s)), s, w.
      split; [apply Hhit; assumption | reflexivity].
  - intros Ht Hn. split; [apply Hhit; assumption |].
    unfold isAuthenticated.
    destruct (accessToken s); [| discriminate].
    assert (Hlt : (now w <? tokenExpiry s) = true) by (apply Z.ltb_lt; lia).
    rewrite Hlt. reflexivity.
Qed.

(** X17. A token whose lifetime [expires_in] is 60 seconds or less is
    never served from the cache: a call of [getAccessToken()] made once such
    a token has been stored, if it returns, has sent at least one new
    request. *)
Theorem short_lived_tokens_are_never_reused
  (s s' : t) (w w' : World) (d : RedditAuthResponse) (storedAt : Z) (token : string) :
  expires_in d <= 60 -> storedAt <= now w ->
  getAccessToken config server (stored s d storedAt, w) = (Returns token, (s', w')) ->
  exists more : list Request, more <> [] /\ sent w' = sent w ++ more.
Proof.
  intros Hlife Hnow H.
  assert (Hmiss : (now w <? tokenExpiry (stored s d storedAt) - 60000) = false).
  { apply Z.ltb_ge. cbn [stored tokenExpiry]. lia. }
  run_method H; inversion H; subst; clear H; cbn [sent];
    try (rewrite Hmiss, andb_false_r in *; discriminate);
    rewrite <- ?app_assoc; eexists; (split; [| reflexivity]); discriminate.
Qed.

(** X18. After [revokeToken()] has returned, no usable access token is
    cached and the refresh token is the one held before. When a token was
    cached, one revocation request was sent for it, the access token is null
    and the expiry 0, [isAuthenticated()] answers false at any later time,
    and the next [getAccessToken()] that returns has sent a request. *)
Theorem revoking_logs_out (s s1 : t) (w w1 : World) :
  revokeToken server (s, w) = (Returns tt, (s1, w1)) ->
  refreshToken s1 = refreshToken s
  /\ truthy (accessToken s1) = false
  /\ (truthy (accessToken s) = true ->
      accessToken s1 = None /\ tokenExpiry s1 = 0
      /\ sent w1 = sent w ++ [revokeRequest (valueOf (accessToken s))]
      /\ forall w2, isAuthenticated (s1, w2) = (Returns false, (s1, w2)))
  /\ (forall w2 token s2 w3,
         getAccessToken config server (s1, w2) = (Returns token, (s2, w3)) ->
         sent w3 <> sent w2).
Proof.
  intros H.
  assert (Hfalsy : truthy (accessToken s1) = false
                   /\ refreshToken s1 = refreshToken s
                   /\ (truthy (accessToken s) = true ->
                       accessToken s1 = None /\ tokenExpiry s1 = 0
                       /\ sent w1 = sent w ++ [revokeRequest (valueOf (accessToken s))])).
  { run_method H; inversion H; subst; clear H; cbn [accessToken refreshToken tokenExpiry sent].
    - split; [| split; [reflexivity |]].
      + destruct (truthy (accessToken s1)); [discriminate | reflexivity].
      + intros Ht. destruct (truthy (accessToken s1)); discriminate.
    - split; [reflexivity |]. split; [reflexivity |]. intros _. repeat split. }
  destruct Hfalsy as (Hf & Hr & Hclear).
  split; [exact Hr |]. split; [exact Hf |]. split.
  - intros Ht. destruct (Hclear Ht) as (Hnone & Hexp & Hsent).
    repeat split; try assumption.
    intros w2. unfold isAuthenticated. rewrite Hnone. reflexivity.
  - intros w2 token s2 w3 Hget Hsent.
    destruct (silent_success_is_a_cache_hit s1 s2 w2 w3 token Hget Hsent) as (Ht & _).
    congruence.
Qed.

(** X19. When [getAccessToken()] throws, the error is the one of the
    password attempt. Either the username or the password is absent or
    empty, and the error is the [AuthenticationError] 'Username and password
    are required for script authentication', which [retryWithBackoff] does
    not retry; or both are present, the last request sent is the password
    request, that request failed, and the error thrown is the classification
    of its failure. The failure of a refresh attempt is never what the
    caller sees. *)
Theorem the_password_attempt_decides_the_error
  (s s' : t) (w w' : World) (thrown : Thrown) :
  getAccessToken config server (s, w) = (Throws thrown, (s', w')) ->
  ((truthy (username config) = false \/ truthy (password config) = false)
   /\ thrown = TError (newAuthenticationError
                         "Username and password are required for script authentication")
   /\ doNotRetry thrown = true)
  \/
  (truthy (username config) = true /\ truthy (password config) = true
   /\ exists (before : list Request) (error : Thrown),
        sent w' = before ++ [passwordRequest config]
        /\ snd (server (List.length before) (passwordRequest config)) = Failed error
        /\ thrown = TError (parseRedditError error)).
Proof.
  intros H. run_method H; inversion H; subst; clear H; cbn [sent] in *;
    try congruence;
    rewrite ?orb_true_iff, ?orb_false_iff, ?negb_true_iff, ?negb_false_iff in *;
    first
      [ left; split; [tauto | split; reflexivity]
      | right;
        match goal with
        | Hb : _ = true /\ _ = true |- _ => destruct Hb as [Hu Hp]
        end;
        split; [exact Hu | split; [exact Hp |]];
        match goal with
        | Hs : server (List.length ?before) _ = (_, Failed ?e) |- _ =>
            exists before, e; split; [reflexivity |]; split; [rewrite Hs |]; reflexivity
        end ].
Qed.

End AuthFacts.

Lemma client_bears_the_cached_token_witness :
  let config := mkConfig "id" "secret" "agent/1.0" (Some "user") (Some "pass") None 60 3 in
  let server := fun (_ : nat) (_ : Request) =>
                  (40, Fulfilled (mkAuthResponse "token-1" "bearer" 3600 "*" None)) in
  let s' := mk (Some "token-1") None 3601040 in
  let w' := mkWorld 1040 [passwordRequest config] [] in
  let client := mkClient "https://oauth.reddit.com" "agent/1.0" "Bearer token-1" in
  createAuthenticatedClient config server (new config, mkWorld 1000 [] [])
  = (Returns client, (s', w'))
  /\ exists token,
       getAccessToken config server (new config, mkWorld 1000 [] [])
       = (Returns token, (s', w'))
       /\ accessToken s' = Some token
       /\ authorization client = ("Bearer " ++ token)%string
       /\ baseURL client = "https://oauth.reddit.com"
       /\ clientUserAgent client = userAgent config.
Proof.
  intros config server s' w' client.
  assert (H : createAuthenticatedClient config server (new config, mkWorld 1000 [] [])
              = (Returns client, (s', w'))) by (vm_compute; reflexivity).
  split; [exact H |].
  exact (client_bears_the_cached_token config server _ _ _ _ _ H).
Defined.

Lemma failed_authentication_changes_nothing_witness :
  let config := mkConfig "id" "secret" "agent/1.0" (Some "user") (Some "pass")
                  (Some "refresh-1") 60 3 in
  let unavailable := TAxios (Some (mkResponse 503 None None))
                       "Request failed with status code 503" in
  let server := fun (_ : nat) (_ : Request) => (40, Failed unavailable) in
  let s := mk (Some "token-1") (Some "refresh-1") 990 in
  let w' := mkWorld 1080 [refreshRequest "refresh-1"; passwordRequest config]
              [TError (parseRedditError unavailable)] in
  getAccessToken config server (s, mkWorld 1000 [] [])
  = (Throws (TError (parseRedditError unavailable)), (s, w'))
  /\ s = s
  /\ exists e, TError (parseRedditError unavailable) = TError e /\ cls e <> ErrorC.
Proof.
  intros config unavailable server s w'.
  assert (H : getAccessToken config server (s, mkWorld 1000 [] [])
              = (Throws (TError (parseRedditError unavailable)), (s, w')))
    by (vm_compute; reflexivity).
  split; [exact H |].
  exact (failed_authentication_changes_nothing config server _ _ _ _ _ (or_introl H)).
Defined.

Lemma the_refresh_token_is_never_lost_witness :
  let config := mkConfig "id" "secret" "agent/1.0" (Some "user") (Some "pass")
                  (Some "refresh-1") 60 3 in
  let d := mkAuthResponse "token-2" "bearer" 3600 "*" (Some "") in
  let server := fun (_ : nat) (_ : Request) => (40, Fulfilled d) in
  let s' := mk (Some "token-2") (Some "refresh-1") 3601040 in
  let w' := mkWorld 1040 [refreshRequest "refresh-1"] [] in
  getAccessToken config server (new config, mkWorld 1000 [] []) = (Returns "token-2", (s', w'))
  /\ (truthy (refreshToken (new config)) = true -> truthy (refreshToken s') = true)
  /\ ((sent w' = [] /\ refreshToken s' = refreshToken (new config))
      \/
      (exists (before : list Request) (req : Request) (d : RedditAuthResponse),
          sent w' = before ++ [req]
          /\ snd (server (List.length before) req) = Fulfilled d
          /\ access_token d = "token-2"
          /\ refreshToken s'
             = if truthy (refresh_token d) then refresh_token d
               else refreshToken (new config))).
Proof.
  intros config d server s' w'.
  assert (H : getAccessToken config server (new config, mkWorld 1000 [] [])
              = (Returns "token-2", (s', w'))) by (vm_compute; reflexivity).
  split; [exact H |].
  exact (the_refresh_token_is_never_lost config server _ _ _ _ _ H).
Defined.

Lemma short_lived_tokens_are_never_reused_witness :
  let config := mkConfig "id" "secret" "agent/1.0" (Some "user") (Some "pass") None 60 3 in
  let d := mkAuthResponse "token-1" "bearer" 60 "*" None in
  let server := fun (_ : nat) (_ : Request) => (40, Fulfilled d) in
  let w := mkWorld 1040 [passwordRequest config] [] in
  let w' := mkWorld 1080 [passwordRequest config; passwordRequest config] [] in
  getAccessToken config server (stored (new config) d 1040, w)
  = (Returns "token-1", (mk (Some "token-1") None 61080, w'))
  /\ exists more : list Request, more <> [] /\ sent w' = sent w ++ more.
Proof.
  intros config d server w w'.
  assert (H : getAccessToken config server (stored (new config) d 1040, w)
              = (Returns "token-1", (mk (Some "token-1") None 61080, w')))
    by (vm_compute; reflexivity).
  split; [exact H |].
  apply (short_lived_tokens_are_never_reused config server (new config)
           (mk (Some "token-1") None 61080) w w' d 1040 "token-1");
    [vm_compute; discriminate | vm_compute; discriminate | exact H].
Defined.

Lemma revoking_logs_out_witness :
  let config := mkConfig "id" "secret" "agent/1.0" (Some "user") (Some "pass") None 60 3 in
  let server := fun (_ : nat) (_ : Request) =>
                  (40, Fulfilled (mkAuthResponse "token-2" "bearer" 3600 "*" None)) in
  let s := mk (Some "token-1") (Some "refresh-1") 3600000 in
  let s1 := mk None (Some "refresh-1") 0 in
  let w := mkWorld 1000 [] [] in
  let w1 := mkWorld 1040 [revokeRequest "token-1"] [] in
  revokeToken server (s, w) = (Returns tt, (s1, w1))
  /\ refreshToken s1 = refreshToken s
  /\ truthy (accessToken s1) = false
  /\ (truthy (accessToken s) = true ->
      accessToken s1 = None /\ tokenExpiry s1 = 0
      /\ sent w1 = sent w ++ [revokeRequest (valueOf (accessToken s))]
      /\ forall w2, isAuthenticated (s1, w2) = (Returns false, (s1, w2)))
  /\ (forall w2 token s2 w3,
         getAccessToken config server (s1, w2) = (Returns token, (s2, w3)) ->
         sent w3 <> sent w2).
Proof.
  intros config server s s1 w w1.
  assert (H : revokeToken server (s, w) = (Returns tt, (s1, w1))) by (vm_compute; reflexivity).
  split; [exact H |].
  exact (revoking_logs_out config server _ _ _ _ H).
Defined.

Lemma the_password_attempt_decides_the_error_witness :
  let config := mkConfig "id" "secret" "agent/1.0" (Some "user") (Some "pass")
                  (Some "refresh-1") 60 3 in
  let unauthorized := TAxios (Some (mkResponse 401 None None))
                        "Request failed with status code 401" in
  let server := fun (_ : nat) (_ : Request) => (40, Failed unauthorized) in
  let thrown := TError (parseRedditError unauthorized) in
  let w' := mkWorld 1080 [refreshRequest "refresh-1"; passwordRequest config] [thrown] in
  getAccessToken config server (new config, mkWorld 1000 [] [])
  = (Throws thrown, (new config, w'))
  /\
  (((truthy (username config) = false \/ truthy (password config) = false)
    /\ thrown = TError (newAuthenticationError
                          "Username and password are required for script authentication")
    /\ doNotRetry thrown = true)
   \/
   (truthy (username config) = true /\ truthy (password config) = true
    /\ exists (before : list Request) (error : Thrown),
         sent w' = before ++ [passwordRequest config]
         /\ snd (server (List.length before) (passwordRequest config)) = Failed error
         /\ thrown = TError (parseRedditError error))).
Proof.
  intros config unauthorized server thrown w'.
  assert (H : getAccessToken config server (new config, mkWorld 1000 [] [])
              = (Throws thrown, (new config, w'))) by (vm_compute; reflexivity).
  split; [exact H |].
  exact (the_password_attempt_decides_the_error config server _ _ _ _ _ H).
Defined.
End RedditAuthFacts.

(** ** More on src/tools/read.ts *)

Module ReadToolsFacts.

Import ErrorHandler.
Import ReadTools.

(** *** getPost *)

(** X20. [getPost(id)] sends a [GET] of /api/info whose [id] parameter is
    the full name of the post: 't3_' followed by [id] without one leading
    't3_'; asking by the full name sends the same request. When the listing
    comes back empty, the error thrown has the message 'Post not found: '
    followed by the id as it was given, and neither a status code nor an
    error code: it is a [RedditAPIError] of unknown kind, not a
    [NotFoundError], and [retryWithBackoff] would retry it. When the listing
    is not empty, its first child is returned. Whatever is thrown is a
    [RedditAPIError] or one of its subclasses. *)
Theorem getPost_reports_a_missing_post_as_unclassified
  (Post : Type) (client : GetRequest -> GetReply Post) (id : string) :
  let fullname := ("t3_" ++ stripPrefix id)%string in
  fst (getPost Post client id) = mkGet "/api/info" [("id", fullname)]
  /\ fst (getPost Post client fullname) = fst (getPost Post client id)
  /\ (client (infoRequest id) = Fulfilled [] ->
      exists e,
        snd (getPost Post client id) = Throws (TError e)
        /\ message e = ("Post not found: " ++ id)%string
        /\ statusCode e = None /\ errorCode e = None
        /\ cls e = RedditAPIErrorC /\ kindOf e = Unknown
        /\ doNotRetry (TError e) = false)
  /\ (forall first rest,
         client (infoRequest id) = Fulfilled (first :: rest) ->
         snd (getPost Post client id) = Returns first)
  /\ (forall thrown,
         snd (getPost Post client id) = Throws thrown ->
         exists e, thrown = TError e /\ cls e <> ErrorC).
Proof.
  cbv zeta. split; [reflexivity |]. split; [reflexivity |].
  unfold getPost. cbn [snd].
  split; [| split].
  - intros H. rewrite H. cbn. eexists. repeat split.
  - intros first rest H. rewrite H. reflexivity.
  - intros thrown. destruct (client (infoRequest id)) as [[|first rest] | error]; cbn;
      intros H; inversion H; subst; eexists; (split; [reflexivity |]).
    + discriminate.
    + destruct error as [[r|] msg | e | repr]; cbn; try discriminate.
      unfold statusIs.
      repeat match goal with
             | |- context [Z.eqb (status r) ?k] => destruct (Z.eqb_spec (status r) k)
             end; cbn; discriminate.
Qed.

(** *** flattenComments *)

Section Trees.

Variable Data : Type.

Lemma Item_tree_ind (P : Item Data -> Prop) :
  (forall kind data, P (mkItem kind data None)) ->
  (forall kind data children, Forall P children -> P (mkItem kind data (Some children))) ->
  forall item, P item.
Proof.
  intros HNone HSome. fix IH 1. intros [kind data [children|]].
  - apply HSome. induction children as [|x l IHl]; constructor; [apply IH | exact IHl].
  - apply HNone.
Qed.

(** The array is only ever appended to. *)
Lemma fold_appends (f : Item Data -> list (RedditComment Data) -> list (RedditComment Data))
  (children : list (Item Data)) :
  Forall (fun item => forall acc, f item acc = acc ++ f item []) children ->
  forall acc,
    fold_left (fun a item => f item a) children acc
    = acc ++ fold_left (fun a item => f item a) children [].
Proof.
  induction 1 as [|x l Hx Hl IH]; intros acc; cbn [fold_left].
  - rewrite app_nil_r. reflexivity.
  - rewrite IH, (IH (f x [])), Hx, app_assoc. reflexivity.
Qed.

Lemma processComment_appends (item : Item Data) :
  forall d acc, processComment item d acc = acc ++ processComment item d [].
Proof.
  induction item as [kind data | kind data children IH] using Item_tree_ind;
    intros d acc; cbn [processComment]; destruct (String.eqb kind "t1");
    rewrite ?app_nil_r; try reflexivity.
  assert (Hf : Forall (fun item => forall a,
                           processComment item (d + 1) a
                           = a ++ processComment item (d + 1) []) children).
  { eapply Forall_impl; [| exact IH]. intros item H a. apply H. }
  rewrite (fold_appends (fun item a => processComment item (d + 1) a) children Hf
             (acc ++ [mkComment data d])).
  rewrite (fold_appends (fun item a => processComment item (d + 1) a) children Hf
             ([] ++ [mkComment data d])).
  rewrite <- !app_assoc. reflexivity.
Qed.

Lemma flatten_fold (d : Z) (children : list (Item Data)) (acc : list (RedditComment Data)) :
  fold_left (fun a item => processComment item d a) children acc
  = acc ++ flat_map (fun item => processComment item d []) children.
Proof.
  revert acc. induction children as [|x l IH]; intros acc; cbn [fold_left flat_map].
  - rewrite app_nil_r. reflexivity.
  - rewrite IH, processComment_appends, app_assoc. reflexivity.
Qed.

Lemma processComment_deepens (item : Item Data) :
  forall d k, processComment item (d + k) [] = map (deepen k) (processComment item d []).
Proof.
  induction item as [kind data | kind data children IH] using Item_tree_ind;
    intros d k; cbn [processComment]; destruct (String.eqb kind "t1");
    try reflexivity.
  rewrite !flatten_fold, map_app. cbn [app map deepen commentData depth]. f_equal.
  induction IH as [|x l Hx Hl IHl]; cbn [flat_map]; [reflexivity |].
  rewrite map_app, <- IHl. f_equal.
  replace (d + k + 1) with (d + 1 + k) by lia. apply Hx.
Qed.

Lemma flattenComments_flat_map (children : list (Item Data)) :
  flattenComments children = flat_map (fun item => processComment item 0 []) children.
Proof. unfold flattenComments. rewrite flatten_fold. reflexivity. Qed.

(** X21. [flattenComments] walks the comment tree in document order. The
    flattening of a list of items is the concatenation of the flattenings of
    its items. An item whose kind is not 't1' contributes nothing, and
    neither does anything beneath it. A 't1' item contributes its data at
    depth 0, followed by the flattening of its replies with every depth
    raised by one. *)
Theorem flattenComments_is_a_preorder_walk :
  (forall l1 l2 : list (Item Data),
      flattenComments (l1 ++ l2) = flattenComments l1 ++ flattenComments l2)
  /\
  (forall (kind : string) (data : Data) (replies : option (list (Item Data))),
      kind <> "t1" -> flattenComments [mkItem kind data replies] = [])
  /\
  (forall data : Data, flattenComments [mkItem "t1" data None] = [mkComment data 0])
  /\
  (forall (data : Data) (children : list (Item Data)),
      flattenComments [mkItem "t1" data (Some children)]
      = mkComment data 0 :: map (deepen 1) (flattenComments children)).
Proof.
  split; [| split; [| split]].
  - intros l1 l2. rewrite !flattenComments_flat_map. apply flat_map_app.
  - intros kind data replies Hk. rewrite flattenComments_flat_map.
    cbn [flat_map processComment].
    destruct (String.eqb_spec kind "t1"); [contradiction | reflexivity].
  - intros data. reflexivity.
  - intros data children. rewrite !flattenComments_flat_map.
    cbn [flat_map processComment String.eqb Ascii.eqb Bool.eqb].
    rewrite app_nil_r, flatten_fold. cbn [app]. f_equal.
    induction children as [|x l IH]; cbn [flat_map]; [reflexivity |].
    rewrite map_app, <- IH. f_equal.
    apply (processComment_deepens x 0 1).
Qed.

(** *** The outline of a flattened thread *)

Lemma last_cons_default (l : list Z) (x d : Z) : last (x :: l) d = last l x.
Proof.
  revert x d. induction l as [|y l IH]; intros x d; [reflexivity |].
  change (last (x :: y :: l) d) with (last (y :: l) d).
  rewrite (IH y d), (IH y x). reflexivity.
Qed.

Lemma lastDepth_cons (prev : Z) (c : RedditComment Data) (l : list (RedditComment Data)) :
  lastDepth prev (c :: l) = lastDepth (depth c) l.
Proof. unfold lastDepth. cbn [map]. apply last_cons_default. Qed.

Lemma steps_app (prev : Z) (l1 l2 : list (RedditComment Data)) :
  steps prev l1 -> steps (lastDepth prev l1) l2 -> steps prev (l1 ++ l2).
Proof.
  revert prev. induction l1 as [|c l IH]; intros prev H1 H2; [exact H2 |].
  destruct H1 as [Hc Hl]. cbn [app steps]. split; [exact Hc |].
  apply IH; [exact Hl |]. rewrite <- (lastDepth_cons prev). exact H2.
Qed.

Lemma steps_weaken (prev prev' : Z) (l : list (RedditComment Data)) :
  prev <= prev' -> steps prev l -> steps prev' l.
Proof.
  destruct l as [|c l]; [auto |]. intros Hle [Hc Hl]. split; [lia | exact Hl].
Qed.

Lemma lastDepth_bound (base : Z) (l : list (RedditComment Data)) :
  forall prev,
    base <= prev -> Forall (fun c => base <= depth c) l -> base <= lastDepth prev l.
Proof.
  induction l as [|c l IH]; intros prev Hp Hall; [exact Hp |].
  inversion Hall; subst. rewrite lastDepth_cons. apply IH; assumption.
Qed.

(** A subtree walked at depth [d] after an entry of depth at least [d - 1]. *)
Lemma subtree_outline (item : Item Data) :
  forall d prev,
    d <= prev + 1 ->
    steps prev (processComment item d [])
    /\ Forall (fun c => d <= depth c) (processComment item d [])
    /\ List.length (processComment item d []) = reachable item.
Proof.
  assert (Hnone : forall d prev,
             steps prev (@nil (RedditComment Data))
             /\ Forall (fun c : RedditComment Data => d <= depth c) []
             /\ List.length (@nil (RedditComment Data)) = O).
  { intros d prev. split; [exact I |]. split; [constructor | reflexivity]. }
  induction item as [kind data | kind data children IH] using Item_tree_ind;
    intros d prev Hd; cbn [processComment reachable]; destruct (String.eqb kind "t1");
    try apply Hnone.
  { cbn [app steps List.length depth]. split; [split; [lia | exact I] |].
    split; [| reflexivity]. constructor; [cbn; lia | constructor]. }
  rewrite flatten_fold. cbn [app steps depth List.length].
  assert (Hkids : forall p, d <= p ->
            steps p (flat_map (fun item => processComment item (d + 1) []) children)
            /\ Forall (fun c => d + 1 <= depth c)
                 (flat_map (fun item => processComment item (d + 1) []) children)
            /\ List.length (flat_map (fun item => processComment item (d + 1) []) children)
               = fold_right (fun reply n => (reachable reply + n)%nat) O children).
  { induction IH as [|x l Hx Hl IHl]; intros p Hp; cbn [flat_map fold_right].
    - split; [exact I |]. split; [constructor | reflexivity].
    - destruct (Hx (d + 1) p ltac:(lia)) as (Hs & Ha & Hn).
      assert (Hlast : d <= lastDepth p (processComment x (d + 1) [])).
      { apply lastDepth_bound; [exact Hp |].
        eapply Forall_impl; [| exact Ha]. cbn. intros c Hc. lia. }
      destruct (IHl _ Hlast) as (Hs' & Ha' & Hn').
      split; [apply steps_app; assumption |].
      split; [apply Forall_app; split; assumption |].
      rewrite length_app, Hn, Hn'. reflexivity. }
  destruct (Hkids d (Z.le_refl d)) as (Hs & Ha & Hn).
  split; [split; [lia | exact Hs] |].
  split.
  - constructor; [cbn; lia |].
    eapply Forall_impl; [| exact Ha]. cbn. intros c Hc. lia.
  - rewrite Hn. reflexivity.
Qed.

Lemma thread_outline (children : list (Item Data)) :
  forall prev, -1 <= prev ->
    steps prev (flattenComments children)
    /\ Forall (fun c => 0 <= depth c) (flattenComments children)
    /\ List.length (flattenComments children)
       = fold_right (fun item n => (reachable item + n)%nat) O children.
Proof.
  rewrite flattenComments_flat_map.
  induction children as [|x l IH]; intros prev Hp; cbn [flat_map fold_right].
  - split; [exact I |]. split; [constructor | reflexivity].
  - destruct (subtree_outline x 0 prev ltac:(lia)) as (Hs & Ha & Hn).
    assert (Hlast : -1 <= lastDepth prev (processComment x 0 [])).
    { apply lastDepth_bound; [exact Hp |].
      eapply Forall_impl; [| exact Ha]. cbn. intros c Hc. lia. }
    destruct (IH _ Hlast) as (Hs' & Ha' & Hn').
    split; [apply steps_app; assumption |].
    split; [apply Forall_app; split; assumption |].
    rewrite length_app, Hn, Hn'. reflexivity.
Qed.

Lemma steps_nth (l : list (RedditComment Data)) :
  forall prev i c c',
    steps prev l -> nth_error l i = Some c -> nth_error l (S i) = Some c' ->
    depth c' <= depth c + 1.
Proof.
  induction l as [|x l IH]; intros prev i c c' Hs Hi Hi'; [destruct i; discriminate |].
  destruct Hs as [Hx Hl]. destruct i as [|i].
  - cbn in Hi. inversion Hi; subst. destruct l as [|y l]; [discriminate |].
    cbn in Hi'. inversion Hi'; subst. exact (proj1 Hl).
  - exact (IH _ i c c' Hl Hi Hi').
Qed.

(** X22. The depths in the result of [flattenComments] outline the
    thread: the first comment has depth 0, no depth is negative, and the
    depth of a comment exceeds that of the comment before it by at most one.
    The number of comments returned is the number of 't1' items that are
    reached through 't1' items only. *)
Theorem flattened_depths_outline_the_thread (children : list (Item Data)) :
  let out := flattenComments children in
  (forall c, nth_error out 0 = Some c -> depth c = 0)
  /\ (forall i c c',
         nth_error out i = Some c -> nth_error out (S i) = Some c' ->
         0 <= depth c' <= depth c + 1)
  /\ List.length out = fold_right (fun item n => (reachable item + n)%nat) O children.
Proof.
  intros out. destruct (thread_outline children (-1) (Z.le_refl _)) as (Hs & Ha & Hn).
  fold out in Hs, Ha, Hn.
  split; [| split; [| exact Hn]].
  - intros c Hc. destruct out as [|x l]; [discriminate |].
    cbn in Hc. inversion Hc; subst.
    destruct Hs as [Hx _]. inversion Ha; subst. lia.
  - intros i c c' Hi Hi'. split.
    + apply nth_error_In in Hi'. rewrite Forall_forall in Ha. apply Ha. exact Hi'.
    + exact (steps_nth out (-1) i c c' Hs Hi Hi').
Qed.

End Trees.

End ReadToolsFacts.

(** ** More on src/utils/image-upload.ts *)

Module ImageUploadFacts.

Import ErrorHandler.
Import ImageUpload.

(** *** getContentType *)

Lemma split_nonempty (sep : ascii) (s : string) : split sep s <> [].
Proof.
  destruct s as [|c r]; cbn [split]; [discriminate |].
  destruct (Ascii.eqb c sep); [discriminate |].
  destruct (split sep r); discriminate.
Qed.

Lemma split_append (sep : ascii) (a b : string) :
  split sep (a ++ String sep b) = split sep a ++ split sep b.
Proof.
  induction a as [|c a IH]; cbn [append split].
  - rewrite Ascii.eqb_refl. reflexivity.
  - destruct (Ascii.eqb c sep); rewrite IH; [reflexivity |].
    pose proof (split_nonempty sep a) as Hne.
    destruct (split sep a) as [|h t]; [congruence | reflexivity].
Qed.

Lemma pop_app (l1 l2 : list string) : l2 <> [] -> pop (l1 ++ l2) = pop l2.
Proof.
  intros Hne. induction l1 as [|x l IH]; [reflexivity |].
  cbn [app pop]. rewrite IH.
  destruct (l ++ l2) eqn:E; [| reflexivity].
  apply app_eq_nil in E. destruct E; congruence.
Qed.

Lemma pop_map (f : string -> string) (l : list string) :
  pop (map f l) = option_map f (pop l).
Proof.
  induction l as [|x l IH]; [reflexivity |].
  destruct l as [|y l]; [reflexivity |].
  cbn [map pop] in *. exact IH.
Qed.

Lemma lowerChar_dot (c : ascii) : Ascii.eqb (lowerChar c) "." = Ascii.eqb c ".".
Proof.
  destruct c as [b0 b1 b2 b3 b4 b5 b6 b7].
  destruct b0, b1, b2, b3, b4, b5, b6, b7; reflexivity.
Qed.

Lemma lowerChar_idempotent (c : ascii) : lowerChar (lowerChar c) = lowerChar c.
Proof.
  destruct c as [b0 b1 b2 b3 b4 b5 b6 b7].
  destruct b0, b1, b2, b3, b4, b5, b6, b7; reflexivity.
Qed.

Lemma toLowerCase_idempotent (s : string) : toLowerCase (toLowerCase s) = toLowerCase s.
Proof.
  induction s as [|c r IH]; cbn [toLowerCase]; [reflexivity |].
  rewrite lowerChar_idempotent, IH. reflexivity.
Qed.

Lemma split_toLowerCase (s : string) :
  split "." (toLowerCase s) = map toLowerCase (split "." s).
Proof.
  induction s as [|c r IH]; [reflexivity |].
  cbn [toLowerCase split]. rewrite lowerChar_dot, IH.
  destruct (Ascii.eqb c "."); [reflexivity |].
  destruct (split "." r); reflexivity.
Qed.

(** X24. [getContentType] always answers one of image/png, image/jpeg,
    image/gif and image/webp. It looks only at what follows the last dot of
    the file name: whatever precedes a dot is ignored. It does not
    distinguish upper-case from lower-case letters. An answer other than
    image/jpeg comes from a last segment that is png, gif or webp up to the
    case of its letters. *)
Theorem getContentType_reads_the_last_extension :
  (forall filename,
      In (getContentType filename) ["image/png"; "image/jpeg"; "image/gif"; "image/webp"])
  /\
  (forall name rest,
      getContentType (name ++ String "." rest) = getContentType rest)
  /\
  (forall filename, getContentType (toLowerCase filename) = getContentType filename)
  /\
  (forall filename,
      getContentType filename <> "image/jpeg" ->
      exists ext, pop (split "." filename) = Some ext
                  /\ In (toLowerCase ext) ["png"; "gif"; "webp"]).
Proof.
  split; [| split; [| split]].
  - intros filename. unfold getContentType.
    destruct (option_map toLowerCase (pop (split "." filename))) as [ext|]; cbn [In];
      [| tauto].
    destruct (String.eqb ext "png"); [tauto |].
    destruct (String.eqb ext "jpg" || String.eqb ext "jpeg"); [tauto |].
    destruct (String.eqb ext "gif"); [tauto |].
    destruct (String.eqb ext "webp"); tauto.
  - intros name rest. unfold getContentType.
    rewrite split_append, pop_app by apply split_nonempty. reflexivity.
  - intros filename. unfold getContentType.
    rewrite split_toLowerCase, pop_map.
    destruct (pop (split "." filename)) as [ext|]; [| reflexivity].
    cbn [option_map]. rewrite toLowerCase_idempotent. reflexivity.
  - intros filename. unfold getContentType.
    destruct (pop (split "." filename)) as [ext|]; cbn [option_map]; [| congruence].
    intros H. exists ext. split; [reflexivity |]. cbn [In].
    destruct (String.eqb_spec (toLowerCase ext) "png"); [auto |].
    destruct (String.eqb (toLowerCase ext) "jpg" || String.eqb (toLowerCase ext) "jpeg");
      [congruence |].
    destruct (String.eqb_spec (toLowerCase ext) "gif"); [auto |].
    destruct (String.eqb_spec (toLowerCase ext) "webp"); [auto | congruence].
Qed.

(** *** uploadImage *)

Section UploadFacts.

Variable trim : string -> string.
Variable catboxApi : PostRequest -> Reply string.
Variable imgbbApi : PostRequest -> Reply ImgBBData.

Ltac run_upload H :=
  unfold uploadImage, uploadToCatbox, uploadToImgBB, tryCatch, bind, ret, throw, post,
    consoleWarn in H;
  repeat match type of H with
         | context [match ?x with _ => _ end] =>
             match x with
             | context [match _ with _ => _ end] => fail 1
             | _ => destruct x eqn:?
             end
         | context [if ?x then _ else _] =>
             match x with
             | context [if _ then _ else _] => fail 1
             | context [match _ with _ => _ end] => fail 1
             | _ => destruct x eqn:?
             end
         end;
  try discriminate H.

(** X23. [uploadImage] sends one request to Catbox and, only when that
    request failed and a non-empty ImgBB key was given, a second one to
    ImgBB. When Catbox answers, the result is its answer, trimmed, and no
    warning is logged. When Catbox fails, its classified error is logged as
    a warning and is never what is thrown: without a key a plain [Error]
    'Image upload failed and no ImgBB API key provided for fallback' is
    thrown; with a key the outcome is that of ImgBB, its URLs or the
    classification of its failure. *)
Theorem uploadImage_falls_back_at_most_once
  (imageBuffer : Buffer) (filename : string) (imgbbApiKey : option string)
  (w w' : World) (r : Outcome ImageUploadResult) :
  uploadImage trim catboxApi imgbbApi imageBuffer filename imgbbApiKey w = (r, w') ->
  let first := catboxRequest imageBuffer filename in
  let second := imgbbRequest imageBuffer (valueOf imgbbApiKey) in
  (exists body,
      catboxApi first = Fulfilled body
      /\ r = Returns (mkResult (trim body) None catbox)
      /\ sent w' = sent w ++ [first] /\ warnings w' = warnings w)
  \/
  (exists error,
      catboxApi first = Failed error
      /\ warnings w' = warnings w ++ [TError (parseRedditError error)]
      /\ ((truthy imgbbApiKey = false
           /\ sent w' = sent w ++ [first]
           /\ r = Throws (TError (newError
                   "Image upload failed and no ImgBB API key provided for fallback")))
          \/
          (truthy imgbbApiKey = true
           /\ sent w' = sent w ++ [first; second]
           /\ match imgbbApi second with
              | Fulfilled d => r = Returns (mkResult (data_url d) (data_delete_url d) imgbb)
              | Failed error2 => r = Throws (TError (parseRedditError error2))
              end))).
Proof.
  intros H. cbv zeta.
  run_upload H; inversion H; subst; clear H; cbn [sent warnings];
    rewrite <- ?app_assoc; cbn [app].
  - left. eexists. repeat split.
  - right. eexists. split; [reflexivity |]. split; [reflexivity |].
    right. repeat split.
  - right. eexists. split; [reflexivity |]. split; [reflexivity |].
    right. repeat split.
  - right. eexists. split; [reflexivity |]. split; [reflexivity |].
    left. repeat split.
Qed.

End UploadFacts.

Lemma uploadImage_falls_back_at_most_once_witness :
  let unavailable := TAxios (Some (mkResponse 503 None None))
                       "Request failed with status code 503" in
  let catboxApi := fun _ : PostRequest => @Failed string unavailable in
  let imgbbApi := fun _ : PostRequest =>
                    Fulfilled (mkImgBBData "https://i.ibb.co/a.png" None) in
  let r := Returns (mkResult "https://i.ibb.co/a.png" None imgbb) in
  let w' := mkWorld [catboxRequest [] "a.PNG"; imgbbRequest [] "key-1"]
              [TError (parseRedditError unavailable)] in
  uploadImage (fun body => body) catboxApi imgbbApi [] "a.PNG" (Some "key-1")
    (mkWorld [] []) = (r, w')
  /\ form (catboxRequest [] "a.PNG")
     = [("reqtype", Text "fileupload"); ("fileToUpload", File [] "a.PNG" "image/png")]
  /\ ((exists body,
         catboxApi (catboxRequest [] "a.PNG") = Fulfilled body
         /\ r = Returns (mkResult body None catbox)
         /\ sent w' = [] ++ [catboxRequest [] "a.PNG"] /\ warnings w' = [])
      \/
      (exists error,
         catboxApi (catboxRequest [] "a.PNG") = Failed error
         /\ warnings w' = [] ++ [TError (parseRedditError error)]
         /\ ((truthy (Some "key-1") = false
              /\ sent w' = [] ++ [catboxRequest [] "a.PNG"]
              /\ r = Throws (TError (newError
                      "Image upload failed and no ImgBB API key provided for fallback")))
             \/
             (truthy (Some "key-1") = true
              /\ sent w' = [] ++ [catboxRequest [] "a.PNG"; imgbbRequest [] "key-1"]
              /\ match imgbbApi (imgbbRequest [] "key-1") with
                 | Fulfilled d =>
                     r = Returns (mkResult (data_url d) (data_delete_url d) imgbb)
                 | Failed error2 => r = Throws (TError (parseRedditError error2))
                 end)))).
Proof.
  intros unavailable catboxApi imgbbApi r w'.
  assert (H : uploadImage (fun body => body) catboxApi imgbbApi [] "a.PNG" (Some "key-1")
                (mkWorld [] []) = (r, w')) by (vm_compute; reflexivity).
  split; [exact H |]. split; [vm_compute; reflexivity |].
  exact (uploadImage_falls_back_at_most_once (fun body => body) catboxApi imgbbApi
           [] "a.PNG" (Some "key-1") (mkWorld [] []) w' r H).
Defined.

End ImageUploadFacts.
